(** * QuMIn: the image-to-metric pipeline of [qumin/pipeline.py]

    A shallow embedding of [compute_thresholds], [make_masks],
    [_nonzero_mean], [measure_intensity] and [partition_coefficient],
    followed by the properties stated about them.

    Numbers.  A Python/numpy float is modelled by [float]: the three IEEE
    special values [NaN], [PInf], [NInf] kept as they are, and the finite
    values carried by a real number.  Arithmetic on finite values is the
    exact arithmetic of [R]; rounding, overflow and the sign of zero are
    not modelled.  The special-value rules (NaN absorbs, inf - inf = NaN,
    0 * inf = NaN, 0 / 0 = NaN, every ordered comparison with NaN is
    false) are the IEEE ones numpy follows.  Where a property turns on
    rounding, as the behaviour on constant images does, the pipeline is
    read again on binary64 numbers, in the module [Binary64].

    Arrays.  A 2-D numpy array is the list of its rows; [shape] is the
    list of the row lengths, which for an h x w array with h > 0 fixes
    (h, w).  A 1-D array is a list. *)

From Stdlib Require Import String Reals Lra Lia ZArith Bool List.
Import ListNotations.
Open Scope R_scope.

(* ================================================================== *)
(** * Floats *)

Inductive float : Type :=
| NaN
| PInf
| NInf
| Fin (x : R).

Definition Rltb (x y : R) : bool := if Rlt_dec x y then true else false.
Definition Rleb (x y : R) : bool := if Rle_dec x y then true else false.
Definition Reqb (x y : R) : bool := if Req_dec_T x y then true else false.

Definition isfinite (a : float) : bool :=
  match a with Fin _ => true | _ => false end.

Definition isnan (a : float) : bool :=
  match a with NaN => true | _ => false end.

Definition isinf (a : float) : bool :=
  match a with PInf | NInf => true | _ => false end.

(** [neg = true] gives minus infinity. *)
Definition signed_inf (neg : bool) : float := if neg then NInf else PInf.

Definition fneg (a : float) : float :=
  match a with
  | NaN => NaN
  | PInf => NInf
  | NInf => PInf
  | Fin x => Fin (- x)
  end.

Definition fadd (a b : float) : float :=
  match a, b with
  | NaN, _ | _, NaN => NaN
  | PInf, NInf | NInf, PInf => NaN
  | PInf, _ | _, PInf => PInf
  | NInf, _ | _, NInf => NInf
  | Fin x, Fin y => Fin (x + y)
  end.

Definition fsub (a b : float) : float := fadd a (fneg b).

Definition fmul (a b : float) : float :=
  match a, b with
  | NaN, _ | _, NaN => NaN
  | Fin x, Fin y => Fin (x * y)
  | Fin x, PInf | PInf, Fin x => if Reqb x 0 then NaN else signed_inf (Rltb x 0)
  | Fin x, NInf | NInf, Fin x => if Reqb x 0 then NaN else signed_inf (Rltb 0 x)
  | PInf, PInf | NInf, NInf => PInf
  | PInf, NInf | NInf, PInf => NInf
  end.

(** IEEE division, as numpy's [true_divide] performs it (a zero divisor
    gives NaN or an infinity, with a warning and no exception). *)
Definition fdiv (a b : float) : float :=
  match a, b with
  | NaN, _ | _, NaN => NaN
  | Fin x, Fin y =>
      if Reqb y 0
      then (if Reqb x 0 then NaN else signed_inf (Rltb x 0))
      else Fin (x / y)
  | Fin _, _ => Fin 0
  | PInf, Fin y => signed_inf (Rltb y 0)
  | NInf, Fin y => signed_inf (negb (Rltb y 0))
  | _, _ => NaN
  end.

Definition fsqrt (a : float) : float :=
  match a with
  | NaN | NInf => NaN
  | PInf => PInf
  | Fin x => if Rltb x 0 then NaN else Fin (sqrt x)
  end.

(** [fgtb a b] is [a > b]. *)
Definition fgtb (a b : float) : bool :=
  match a, b with
  | NaN, _ | _, NaN => false
  | NInf, _ | _, PInf => false
  | PInf, _ | _, NInf => true
  | Fin x, Fin y => Rltb y x
  end.

(** [fgeb a b] is [a >= b]. *)
Definition fgeb (a b : float) : bool :=
  match a, b with
  | NaN, _ | _, NaN => false
  | PInf, _ | _, NInf => true
  | NInf, _ | _, PInf => false
  | Fin x, Fin y => Rleb y x
  end.

(** [feqb a b] is [a == b]. *)
Definition feqb (a b : float) : bool :=
  match a, b with
  | PInf, PInf | NInf, NInf => true
  | Fin x, Fin y => Reqb x y
  | _, _ => false
  end.

(** Truth value of a Python float: every float but zero is true. *)
Definition float_truthy (a : float) : bool := negb (feqb a (Fin 0)).

(* ================================================================== *)
(** * Exceptions *)

Inductive exn : Type := IndexError | ZeroDivisionError.

Inductive result (A : Type) : Type :=
| Ok (a : A)
| Raise (e : exn).
Arguments Ok {A} a.
Arguments Raise {A} e.

Definition bind {A B : Type} (r : result A) (k : A -> result B) : result B :=
  match r with
  | Ok a => k a
  | Raise e => Raise e
  end.

Notation "x <- r ;; k" := (bind r (fun x => k))
  (at level 61, r at next level, right associativity).

(** Python's [/] on two floats: a zero divisor raises. *)
Definition py_truediv (a b : float) : result float :=
  if feqb b (Fin 0) then Raise ZeroDivisionError else Ok (fdiv a b).

(* ================================================================== *)
(** * Arrays *)

Definition image : Type := list (list float).
Definition mask : Type := list (list bool).

Definition shape {A : Type} (a : list (list A)) : list nat := map (@List.length A) a.

Definition shape_eqb (s t : list nat) : bool :=
  if list_eq_dec Nat.eq_dec s t then true else false.

Definition mapi {A B : Type} (f : nat -> A -> B) (l : list A) : list B :=
  map (fun p => f (fst p) (snd p)) (combine (seq 0 (List.length l)) l).

(** [a.ravel()]: the elements in row-major order. *)
Definition ravel {A : Type} (a : list (list A)) : list A := concat a.

(** [a.sum()]: numpy starts from the additive identity. *)
Definition np_sum (v : list float) : float := fold_left fadd v (Fin 0).

(** [a.mean()] is the sum divided by the element count. *)
Definition np_mean (v : list float) : float :=
  fdiv (np_sum v) (Fin (INR (List.length v))).

(** [a.var(ddof)] as numpy's [_var] computes it: the mean first, then
    the mean of the squared deviations with the divisor
    [max(N - ddof, 0)]. *)
Definition np_var (ddof : nat) (v : list float) : float :=
  let arrmean := fdiv (np_sum v) (Fin (INR (List.length v))) in
  let x := map (fun a => fsub a arrmean) v in
  let x := map (fun d => fmul d d) x in
  fdiv (np_sum x) (Fin (INR (List.length v - ddof))).

Definition np_std (ddof : nat) (v : list float) : float := fsqrt (np_var ddof v).

(** [img > t] for a scalar [t]. *)
Definition greater (img : image) (t : float) : mask :=
  map (map (fun x => fgtb x t)) img.

(** [~m] *)
Definition logical_not (m : mask) : mask := map (map negb) m.

(** [np.logical_and(a, b)] on two arrays of one shape. *)
Definition logical_and (a b : mask) : mask :=
  map (fun rs => map (fun p => fst p && snd p) (combine (fst rs) (snd rs)))
      (combine a b).

(** [values[m]] for a boolean array [m]: the elements of [values] where
    [m] is true, in row-major order; a shape mismatch raises. *)
Definition take_where {A : Type} (xs : list A) (bs : list bool) : list A :=
  map fst (filter snd (combine xs bs)).

Definition bool_index (values : image) (m : mask) : result (list float) :=
  if shape_eqb (shape values) (shape m)
  then Ok (take_where (ravel values) (ravel m))
  else Raise IndexError.

(** ** Morphology

    [skimage.morphology.square(n)] is the n x n array of ones, and
    [binary_dilation(m, selem)] sets a pixel when the footprint, centred
    on it, meets a true pixel of [m]; outside the array the mask counts
    as false, and the result has the shape of [m]. *)

Definition square (n : Z) : mask :=
  repeat (repeat true (Z.to_nat n)) (Z.to_nat n).

Definition get2 (m : mask) (i j : Z) : bool :=
  if ((i <? 0) || (j <? 0))%Z then false
  else nth (Z.to_nat j) (nth (Z.to_nat i) m []) false.

Definition height (m : mask) : Z := Z.of_nat (List.length m).
Definition width (m : mask) : Z := Z.of_nat (List.length (hd [] m)).

Definition indices (n : Z) : list Z := map Z.of_nat (seq 0 (Z.to_nat n)).

(** The footprint [selem], centred on the pixel [(i, j)], meets a true
    pixel of [m]. *)
Definition footprint_meets (m selem : mask) (i j : nat) : bool :=
  existsb (fun a =>
    existsb (fun b =>
      get2 selem a b &&
      get2 m (Z.of_nat i - (a - height selem / 2))
             (Z.of_nat j - (b - width selem / 2)))
      (indices (width selem)))
    (indices (height selem)).

Definition binary_dilation (m selem : mask) : mask :=
  mapi (fun i row => mapi (fun j _ => footprint_meets m selem i j) row) m.

(* ================================================================== *)
(** * The pipeline *)

Record Settings : Type := mkSettings {
  lower_k : float;
  upper_k : float;
  blur_sigma : float;
  dilate_size : Z
}.

Definition default_settings : Settings :=
  mkSettings (Fin (25 / 100)) (Fin (20 / 100)) (Fin 0) 0%Z.

Record Masks : Type := mkMasks {
  bg : mask;
  agg : mask;
  lower : float;
  upper : float
}.

Definition compute_thresholds (img : image) (lower_k upper_k : float)
  : float * float :=
  let std := np_std 0 (ravel img) in
  let mean := np_mean (ravel img) in
  let lower := fadd mean (fmul lower_k std) in
  let upper := fadd mean (fmul upper_k std) in
  (lower, upper).

Definition dilation_enabled (d : Z) : bool :=
  (negb (d =? 0) && (3 <=? d) && (d mod 2 =? 1))%Z.

Definition _nonzero_mean (values : image) (m : option mask) : result float :=
  v <- match m with
       | None => Ok (ravel values)
       | Some m => bool_index values m
       end ;;
  let v := filter isfinite v in
  if Nat.eqb (List.length v) 0 then Ok NaN else Ok (np_mean v).

Definition measure_intensity (main_img red_img : image) (masks : Masks)
  : result (list (string * float)) :=
  let bg := bg masks in
  let agg := agg masks in
  unedited <- _nonzero_mean main_img None ;;
  bg_mean <- _nonzero_mean main_img (Some bg) ;;
  agg_mean <- _nonzero_mean main_img (Some agg) ;;
  red_agg <- _nonzero_mean red_img (Some agg) ;;
  let cytoplasm_mask := logical_and bg (logical_not agg) in
  red_cyto <- _nonzero_mean red_img (Some cytoplasm_mask) ;;
  Ok [ ("Unedited (Intensity)"%string, unedited);
       ("Background Removed (Intensity)"%string, bg_mean);
       ("Aggregates (Intensity)"%string, agg_mean);
       ("Red Aggregates (Intensity)"%string, red_agg);
       ("Red Cytoplasm (Intensity)"%string, red_cyto) ].

(** [red_cyto] may be Python's [None]. *)
Definition partition_coefficient (red_agg : float) (red_cyto : option float)
  : result float :=
  match red_cyto with
  | None => Ok NaN
  | Some b =>
      if negb (isfinite b) || feqb b (Fin 0)
      then Ok NaN
      else py_truediv red_agg b
  end.

Section Pipeline.

(** [scipy.ndimage.gaussian_filter(img, sigma)]: an external numeric
    filter, left abstract. *)
Variable gaussian_filter : image -> float -> image.

Definition _prep (img : image) (s : Settings) : image :=
  if float_truthy (blur_sigma s) && fgtb (blur_sigma s) (Fin 0)
  then gaussian_filter img (blur_sigma s)
  else img.

Definition make_masks (main_channel_img : image) (s : Settings) : Masks :=
  let img := _prep main_channel_img s in
  let (lower, upper) := compute_thresholds img (lower_k s) (upper_k s) in
  let bg := greater img lower in
  let agg := greater img upper in
  if dilation_enabled (dilate_size s)
  then
    let selem := square (dilate_size s) in
    mkMasks (binary_dilation bg selem) (binary_dilation agg selem) lower upper
  else mkMasks bg agg lower upper.

End Pipeline.

(* ================================================================== *)
(** * Vocabulary of the specification

    What the specification's sentences speak of, written on real
    numbers and pixel coordinates, independently of the code above. *)

Definition Rsum (xs : list R) : R := fold_right Rplus 0 xs.

(** The arithmetic average of a list of reals. *)
Definition arithmetic_mean (xs : list R) : R := Rsum xs / INR (List.length xs).

(** The population variance and standard deviation: the squared
    deviations from the average are divided by the count. *)
Definition population_variance (xs : list R) : R :=
  Rsum (map (fun x => (x - arithmetic_mean xs) * (x - arithmetic_mean xs)) xs)
  / INR (List.length xs).

Definition population_std (xs : list R) : R := sqrt (population_variance xs).

(** The finite samples of a list, as reals. *)
Definition finite_values (v : list float) : list R :=
  flat_map (fun a => match a with Fin x => [x] | _ => [] end) v.

Definition pixel (img : image) (i j : nat) : float := nth j (nth i img []) NaN.

Definition mask_at (m : mask) (i j : nat) : bool := nth j (nth i m []) false.

(** The pixels of [img] at the coordinates satisfying [p], row by row. *)
Definition pixels_where (img : image) (p : nat -> nat -> bool) : list float :=
  flat_map (fun i =>
    flat_map (fun j => if p i j then [pixel img i j] else [])
             (seq 0 (List.length (nth i img []))))
    (seq 0 (List.length img)).

(** The samples a region mean ranges over: every pixel for the
    whole-image sentinel [None], the pixels where the mask is true
    otherwise. *)
Definition region (values : image) (m : option mask) : list float :=
  pixels_where values
    (fun i j => match m with None => true | Some mk => mask_at mk i j end).

(** The mean over a region as the specification words it: NaN when no
    finite sample is selected, the arithmetic mean of the finite
    selected samples otherwise. *)
Definition mean_in_region (values : image) (m : option mask) : float :=
  match finite_values (region values m) with
  | [] => NaN
  | _ :: _ => Fin (arithmetic_mean (finite_values (region values m)))
  end.

(** The image whose pixels are the finite values [xs]. *)
Definition finite_image (xs : list (list R)) : image := map (map Fin) xs.


(** [sub_mask a b]: every true pixel of [a] is true in [b]. *)
Definition sub_mask (a b : mask) : Prop :=
  forall i j : nat, mask_at a i j = true -> mask_at b i j = true.

Definition all_false (m : mask) : Prop :=
  forall i j : nat, mask_at m i j = false.

Definition lookup (key : string) (d : list (string * float)) : option float :=
  match find (fun kv => String.eqb (fst kv) key) d with
  | Some kv => Some (snd kv)
  | None => None
  end.

(** The settings [s] with [dilate_size] replaced by [d]. *)
Definition with_dilate_size (s : Settings) (d : Z) : Settings :=
  mkSettings (lower_k s) (upper_k s) (blur_sigma s) d.

(** The pixel [(i, j)] lies inside the array [m]. *)
Definition in_bounds (m : mask) (i j : nat) : Prop :=
  (i < List.length m)%nat /\ (j < List.length (nth i m []))%nat.

(** [(i0, j0)] is the one true pixel of [m]. *)
Definition single_pixel (m : mask) (i0 j0 : nat) : Prop :=
  forall i j : nat, mask_at m i j = true <-> i = i0 /\ j = j0.

(** A 4 x 4 image with one bright pixel in its top-left corner, and the
    2 x 2 block at that corner. *)
Definition corner_spot : image :=
  finite_image [[16; 0; 0; 0]; [0; 0; 0; 0]; [0; 0; 0; 0]; [0; 0; 0; 0]].

Definition corner_block : mask :=
  [[true; true; false; false]; [true; true; false; false];
   [false; false; false; false]; [false; false; false; false]].

(** A 1 x 3 image whose first pixel equals its mean, and settings with
    both multipliers 0, no smoothing and a dilation of side 3. *)
Definition mean_first_row : image := finite_image [[3; 6; 0]].

Definition dilate3_settings : Settings :=
  mkSettings (Fin 0) (Fin 0) (Fin 0) 3%Z.

(** The smoothing filter that returns its input. *)
Definition no_filter (img : image) (sigma : float) : image := img.

(** A 2 x 2 image with two samples that are not finite, and a mask on it. *)
Definition sample_image : image := [[Fin 1; NaN]; [Fin 3; PInf]].

Definition sample_mask : mask := [[true; true]; [false; true]].

(** ** The two-level scenario

    The 10 x 10 image whose left half is 0 and right half is 10, the
    settings of the scenario, and the mask that is true on the right
    half. *)

Definition two_level_row : list R := repeat 0 5 ++ repeat 10 5.

Definition two_level : image := finite_image (repeat two_level_row 10).

Definition two_level_settings : Settings :=
  mkSettings (Fin (1 / 10)) (Fin (9 / 10)) (Fin 0) 0%Z.

Definition right_half : mask := repeat (repeat false 5 ++ repeat true 5) 10.

Definition two_level_metrics : list (string * float) :=
  [ ("Unedited (Intensity)"%string, Fin 5);
    ("Background Removed (Intensity)"%string, Fin 10);
    ("Aggregates (Intensity)"%string, Fin 10);
    ("Red Aggregates (Intensity)"%string, Fin 10);
    ("Red Cytoplasm (Intensity)"%string, NaN) ].

(* ================================================================== *)
(** * Further vocabulary *)

(** The settings [s] with one field replaced. *)
Definition with_blur_sigma (s : Settings) (b : float) : Settings :=
  mkSettings (lower_k s) (upper_k s) b (dilate_size s).

Definition with_lower_k (s : Settings) (k : float) : Settings :=
  mkSettings k (upper_k s) (blur_sigma s) (dilate_size s).

Definition with_upper_k (s : Settings) (k : float) : Settings :=
  mkSettings (lower_k s) k (blur_sigma s) (dilate_size s).

(** Some sample of [v] is NaN or infinite. *)
Definition has_non_finite (v : list float) : Prop :=
  exists a : float, In a v /\ isfinite a = false.

(** The mask of the shape of [values] that is true everywhere. *)
Definition all_true_like (values : image) : mask :=
  map (map (fun _ : float => true)) values.


(** A float that is NaN or a non-negative real. *)
Definition nan_or_nonneg (a : float) : Prop :=
  a = NaN \/ exists x : R, a = Fin x /\ 0 <= x.

(** The dilation step of [make_masks], applied to one mask. *)
Definition maybe_dilate (d : Z) (m : mask) : mask :=
  if dilation_enabled d then binary_dilation m (square d) else m.

(* ================================================================== *)
(** * The command line: [qumin/cli.py]

    The parts of [cmd_quantify], [_collect_stage_pngs] and [cmd_stitch]
    that decide what is computed and written.  Reading CZI files,
    printing, drawing and writing files are outside: a file comes with
    the array [load_czi] returned for it, a PNG file is named by its
    stem, and an opened image is known by its size. *)

From Stdlib Require Import Ascii Permutation.

Inductive cli_exn : Type :=
| PipelineError (e : exn)
| KeyError (key : string)
| ValueError
| SystemExit (code : Z).

Inductive outcome (A : Type) : Type :=
| Done (a : A)
| Failed (e : cli_exn).
Arguments Done {A} a.
Arguments Failed {A} e.

Definition and_then {A B : Type} (r : outcome A) (k : A -> outcome B) : outcome B :=
  match r with
  | Done a => k a
  | Failed e => Failed e
  end.

Notation "x <~ r ;; k" := (and_then r (fun x => k))
  (at level 61, r at next level, right associativity).

Definition lift {A : Type} (r : result A) : outcome A :=
  match r with
  | Ok a => Done a
  | Raise e => Failed (PipelineError e)
  end.

(** ** Dictionaries, in insertion order *)

Definition dict (V : Type) : Type := list (string * V).

Fixpoint dict_get {V : Type} (d : dict V) (key : string) : option V :=
  match d with
  | [] => None
  | (k, v) :: d' => if String.eqb k key then Some v else dict_get d' key
  end.

(** [d[key] = v]: the value is replaced where the key is, or the entry
    is added at the end. *)
Fixpoint dict_set {V : Type} (d : dict V) (key : string) (v : V) : dict V :=
  match d with
  | [] => [(key, v)]
  | (k, w) :: d' =>
      if String.eqb k key then (k, v) :: d' else (k, w) :: dict_set d' key v
  end.

(** [d.update(e)] *)
Definition dict_update {V : Type} (d e : dict V) : dict V :=
  fold_left (fun acc kv => dict_set acc (fst kv) (snd kv)) e d.

(** [d[key]] *)
Definition getitem {V : Type} (d : dict V) (key : string) : outcome V :=
  match dict_get d key with
  | Some v => Done v
  | None => Failed (KeyError key)
  end.

Definition keys {V : Type} (d : dict V) : list string := map fst d.

(** ** [cmd_quantify] *)

(** An array of shape (Y, X, C): the channel count and, per pixel, the
    list of its C samples. *)
Record Array3 : Type := mkArray3 {
  nchan : nat;
  pixels : list (list (list float))
}.

(** [arr[..., c]]: a negative index counts from the end, and an index
    outside [-C, C) raises. *)
Definition channel (arr : Array3) (c : Z) : result image :=
  let C := Z.of_nat (nchan arr) in
  if ((c <? - C) || (C <=? c))%Z then Raise IndexError
  else
    let k := Z.to_nat (if (c <? 0)%Z then c + C else c)%Z in
    Ok (map (map (fun px => nth k px NaN)) (pixels arr)).

Record File : Type := mkFile {
  stem : string;
  suffix : string;
  loaded : Array3
}.

(** [p.name] *)
Definition name (p : File) : string := (stem p ++ suffix p)%string.

Record Args : Type := mkArgs {
  main_channel : Z;
  red_channel : Z;
  arg_lower_k : float;
  arg_upper_k : float;
  arg_blur : float;
  arg_dilate : Z;
  save_stages : bool
}.

Inductive cell : Type :=
| Text (s : string)
| Number (x : float).

Definition STAGES : list string :=
  [ "Unedited"; "BackgroundRemoved"; "Aggregates";
    "RedAggregates"; "RedCytoplasm" ]%string.

(** The stem of the PNG file [_save_stage_png] writes. *)
Definition stage_png (stem label : string) : string :=
  (stem ++ "_" ++ label)%string.

Section Quantify.

Variable gaussian_filter : image -> float -> image.

(** One turn of the loop of [cmd_quantify]: [None] when the file is
    skipped, otherwise the row of the table and the stems of the stage
    PNG files written. *)
Definition quantify_file (args : Args) (s : Settings) (p : File)
  : outcome (option (dict cell * list string)) :=
  let arr := loaded p in
  if ((Z.of_nat (nchan arr) <=? main_channel args)
      || (Z.of_nat (nchan arr) <=? red_channel args))%Z
  then Done None
  else
    main_img <~ lift (channel arr (main_channel args)) ;;
    red_img <~ lift (channel arr (red_channel args)) ;;
    let masks := make_masks gaussian_filter main_img s in
    metrics <~ lift (measure_intensity main_img red_img masks) ;;
    red_agg <~ getitem metrics "Red Aggregates (Intensity)" ;;
    red_cyto <~ getitem metrics "Red Cytoplasm (Intensity)" ;;
    pc <~ lift (partition_coefficient red_agg (Some red_cyto)) ;;
    let row := [("Filename"%string, Text (name p))] in
    let row := dict_update row (map (fun kv => (fst kv, Number (snd kv))) metrics) in
    let row := dict_set row "PC" (Number pc) in
    let pngs := if save_stages args then map (stage_png (stem p)) STAGES else [] in
    Done (Some (row, pngs)).

Fixpoint quantify_loop (args : Args) (s : Settings) (files : list File)
         (rows : list (dict cell)) (pngs : list string)
  : outcome (list (dict cell) * list string) :=
  match files with
  | [] => Done (rows, pngs)
  | p :: files' =>
      r <~ quantify_file args s p ;;
      match r with
      | None => quantify_loop args s files' rows pngs
      | Some (row, written) =>
          quantify_loop args s files' (rows ++ [row]) (pngs ++ written)
      end
  end.

(** [files] are the [.czi] files of the directory, sorted. *)
Definition cmd_quantify (args : Args) (files : list File)
  : outcome (list (dict cell) * list string) :=
  match files with
  | [] => Failed (SystemExit 1)
  | _ :: _ =>
      let s := mkSettings (arg_lower_k args) (arg_upper_k args)
                          (arg_blur args) (arg_dilate args) in
      quantify_loop args s files [] []
  end.

End Quantify.

(** ** [_collect_stage_pngs] and [cmd_stitch] *)

Fixpoint contains_char (c : Ascii.ascii) (s : string) : bool :=
  match s with
  | EmptyString => false
  | String a rest => Ascii.eqb a c || contains_char c rest
  end.

(** [s.rsplit(c, 1)]: split at the last [c], or [s] alone without one. *)
Fixpoint rsplit_last (c : Ascii.ascii) (s : string) : option (string * string) :=
  match s with
  | EmptyString => None
  | String a rest =>
      match rsplit_last c rest with
      | Some (l, r) => Some (String a l, r)
      | None => if Ascii.eqb a c then Some (EmptyString, rest) else None
      end
  end.

Definition rsplit1 (c : Ascii.ascii) (s : string) : list string :=
  match rsplit_last c s with
  | Some (l, r) => [l; r]
  | None => [s]
  end.

(** [out.setdefault(key, []).append(p)] *)
Fixpoint setdefault_append {V : Type} (out : dict (list V)) (key : string) (p : V)
  : dict (list V) :=
  match out with
  | [] => [(key, [p])]
  | (k, l) :: out' =>
      if String.eqb k key then (k, l ++ [p]) :: out'
      else (k, l) :: setdefault_append out' key p
  end.

Definition underscore : Ascii.ascii := "_"%char.

(** [pngs] are the stems of the PNG files of [qumin_output], in the
    order the directory lists them. *)
Definition _collect_stage_pngs (pngs : list string) : outcome (dict (list string)) :=
  fold_left
    (fun acc p =>
       out <~ acc ;;
       if negb (contains_char underscore p) then Done out
       else
         match rsplit1 underscore p with
         | [stem; stage] => Done (setdefault_append out stem p)
         | _ => Failed ValueError
         end)
    pngs (Done []).

Record Strip : Type := mkStrip {
  canvas_width : nat;
  canvas_height : nat;
  pasted : list (string * nat)
}.

Section Stitch.

(** The size (width, height) of the image stored under a PNG stem. *)
Variable size_of : string -> nat * nat.

(** [{p.stem.rsplit("_", 1)[1]: p for p in files}] *)
Definition stage_mapping (files : list string) : outcome (dict string) :=
  fold_left
    (fun acc p =>
       mapping <~ acc ;;
       match rsplit1 underscore p with
       | _ :: stage :: _ => Done (dict_set mapping stage p)
       | _ => Failed (PipelineError IndexError)
       end)
    files (Done []).

(** [canvas.paste(im, (x, 0)); x += im.size[0]] for each image. *)
Fixpoint paste_all (imgs : list string) (x : nat) : list (string * nat) :=
  match imgs with
  | [] => []
  | im :: rest => (im, x) :: paste_all rest (x + fst (size_of im))
  end.

(** The body of the loop of [cmd_stitch] for one group: [None] when no
    stage image is found, otherwise the strip that is saved. *)
Definition stitch_group (files : list string) : outcome (option Strip) :=
  mapping <~ stage_mapping files ;;
  let imgs :=
    flat_map (fun st => match dict_get mapping st with
                        | Some p => [p]
                        | None => []
                        end) STAGES in
  match imgs with
  | [] => Done None
  | _ :: _ =>
      let widths := map (fun im => fst (size_of im)) imgs in
      let heights := map (fun im => snd (size_of im)) imgs in
      Done (Some (mkStrip (list_sum widths) (list_max heights)
                          (paste_all imgs 0)))
  end.

(** [cmd_stitch]: the strips saved, each with the stem of its file. *)
Definition cmd_stitch (pngs : list string) : outcome (list (string * Strip)) :=
  groups <~ _collect_stage_pngs pngs ;;
  fold_left
    (fun acc g =>
       saved <~ acc ;;
       r <~ stitch_group (snd g) ;;
       match r with
       | None => Done saved
       | Some strip => Done (saved ++ [(("stitched_" ++ fst g)%string, strip)])
       end)
    groups (Done []).

End Stitch.

(** ** Vocabulary for the command line *)

(** The file passes the channel check of [cmd_quantify]. *)
Definition channels_checked (args : Args) (p : File) : bool :=
  ((main_channel args <? Z.of_nat (nchan (loaded p)))
   && (red_channel args <? Z.of_nat (nchan (loaded p))))%Z.

Definition with_main_channel (args : Args) (c : Z) : Args :=
  mkArgs c (red_channel args) (arg_lower_k args) (arg_upper_k args)
         (arg_blur args) (arg_dilate args) (save_stages args).

Definition with_red_channel (args : Args) (c : Z) : Args :=
  mkArgs (main_channel args) c (arg_lower_k args) (arg_upper_k args)
         (arg_blur args) (arg_dilate args) (save_stages args).

(** The columns of the table, in order. *)
Definition COLUMNS : list string :=
  [ "Filename"; "Unedited (Intensity)"; "Background Removed (Intensity)";
    "Aggregates (Intensity)"; "Red Aggregates (Intensity)";
    "Red Cytoplasm (Intensity)"; "PC" ]%string.

(** The stage PNG stems written for one file. *)
Definition stage_pngs (stem : string) : list string :=
  map (stage_png stem) STAGES.

(** The part of a PNG stem before its last underscore, if it has one. *)
Definition group_key (p : string) : option string :=
  match rsplit_last underscore p with
  | Some (l, _) => Some l
  | None => None
  end.

(** The part of a PNG stem after its last underscore, if it has one. *)
Definition stage_of (p : string) : option string :=
  match rsplit_last underscore p with
  | Some (_, r) => Some r
  | None => None
  end.

Definition has_key (k : string) (p : string) : bool :=
  match group_key p with
  | Some l => String.eqb l k
  | None => false
  end.

Definition has_stage (st : string) (p : string) : bool :=
  match stage_of p with
  | Some r => String.eqb r st
  | None => false
  end.

(** The PNG stems of [pngs] grouped under [k], in order. *)
Definition group (k : string) (pngs : list string) : list string :=
  filter (has_key k) pngs.

(** The last file of [files] saved for the stage [st]. *)
Definition last_of_stage (st : string) (files : list string) : option string :=
  match rev (filter (has_stage st) files) with
  | p :: _ => Some p
  | [] => None
  end.

Definition width_of (size_of : string -> nat * nat) (p : string) : nat :=
  fst (size_of p).

Definition height_of (size_of : string -> nat * nat) (p : string) : nat :=
  snd (size_of p).

(* ================================================================== *)
(** * Loading: [qumin/io.py]

    An n-dimensional numpy array is its shape together with its items,
    a function of the index.  [czifile.imread] is outside: [load_czi]
    here starts from the array it returned.  [astype(float)] changes
    nothing in this model. *)

Record ndarray : Type := mkNd {
  dims : list nat;
  item : list nat -> float
}.

Definition ndim (a : ndarray) : nat := List.length (dims a).

(** [np.maximum]: NaN wins over every number. *)
Definition fmaximum (a b : float) : float :=
  if isnan a then a
  else if isnan b then b
  else if fgtb b a then b else a.

(** The maximum of [f 0], ..., [f n]. *)
Definition axis_max (n : nat) (f : nat -> float) : float :=
  fold_left (fun acc i => fmaximum acc (f i)) (seq 1 n) (f 0%nat).

Definition insert_at (k : nat) (i : nat) (idx : list nat) : list nat :=
  firstn k idx ++ i :: skipn k idx.

Definition remove_at (k : nat) (l : list nat) : list nat :=
  firstn k l ++ skipn (S k) l.

(** [a.max(axis=k)]: an axis out of range or of length 0 raises
    (numpy's AxisError is a ValueError). *)
Definition amax (a : ndarray) (k : nat) : outcome ndarray :=
  match nth_error (dims a) k with
  | None => Failed ValueError
  | Some O => Failed ValueError
  | Some (S n) =>
      Done (mkNd (remove_at k (dims a))
                 (fun idx => axis_max n (fun i => item a (insert_at k i idx))))
  end.

(** [np.stack([a], axis=-1)] *)
Definition stack_last (a : ndarray) : ndarray :=
  mkNd (dims a ++ [1%nat]) (fun idx => item a (removelast idx)).

(** [np.moveaxis(a, 0, -1)] *)
Definition moveaxis_first_last (a : ndarray) : ndarray :=
  mkNd (tl (dims a) ++ [hd 0%nat (dims a)])
       (fun idx => item a (last idx 0%nat :: removelast idx)).

Fixpoint find_index {A : Type} (p : A -> bool) (l : list A) (i : nat) : option nat :=
  match l with
  | [] => None
  | x :: l' => if p x then Some i else find_index p l' (S i)
  end.

(** The [chan_idx] of [load_czi]: the last axis of size at most 5. *)
Definition chan_idx (shape : list nat) : option nat :=
  match find_index (fun sz => sz <=? 5)%nat (rev shape) 0 with
  | Some i => Some (List.length shape - 1 - i)%nat
  | None =>
      if (last shape 0 <=? 5)%nat then Some (List.length shape - 1)%nat else None
  end.

(** The [while arr.ndim > 3] loop of [load_czi]; every turn removes one
    axis, so [ndim arr] turns are enough. *)
Fixpoint project_loop (fuel : nat) (arr : ndarray) : outcome ndarray :=
  if (ndim arr <=? 3)%nat then Done arr
  else
    match fuel with
    | O => Done arr
    | S fuel' =>
        let c := chan_idx (dims arr) in
        arr' <~ (if (ndim arr =? 4)%nat
                 then
                   let proj_axis :=
                     match c with Some O => 1%nat | _ => 0%nat end in
                   amax arr proj_axis
                 else amax arr 0) ;;
        project_loop fuel' arr'
    end.

(** [arr.shape[0]] *)
Definition shape0 (a : ndarray) : outcome nat :=
  match dims a with
  | [] => Failed (PipelineError IndexError)
  | d :: _ => Done d
  end.

Definition load_czi (raw : ndarray) : outcome ndarray :=
  arr <~ project_loop (ndim raw) raw ;;
  if (ndim arr =? 2)%nat then Done (stack_last arr)
  else
    d0 <~ shape0 arr ;;
    if (d0 <=? 5)%nat && (ndim arr =? 3)%nat
    then Done (moveaxis_first_last arr)
    else Done arr.

(** The [while a.ndim > 3] loop of [max_projection]. *)
Fixpoint max_loop (fuel : nat) (a : ndarray) : outcome ndarray :=
  if (ndim a <=? 3)%nat then Done a
  else
    match fuel with
    | O => Done a
    | S fuel' => a' <~ amax a 0 ;; max_loop fuel' a'
    end.

Definition max_projection (arr : ndarray) : outcome ndarray :=
  a <~ max_loop (ndim arr) arr ;;
  let a := if (ndim a =? 2)%nat then stack_last a else a in
  d0 <~ shape0 a ;;
  if (d0 <=? 5)%nat && (ndim a =? 3)%nat
  then Done (moveaxis_first_last a)
  else Done a.

(** Every axis has a positive length. *)
Definition all_positive (shape : list nat) : Prop :=
  Forall (fun d => (0 < d)%nat) shape.

(** The last three axes of a shape. *)
Definition last3 (shape : list nat) : list nat :=
  skipn (List.length shape - 3) shape.

(** A shape with its first axis moved to the end when it is at most 5. *)
Definition channels_last (shape : list nat) : list nat :=
  match shape with
  | d0 :: rest => if (d0 <=? 5)%nat then rest ++ [d0] else shape
  | [] => []
  end.

(* ================================================================== *)
(** * Sample inputs *)

Definition one_pixel : image := [[Fin 1]].

Definition one_pixel_masks : Masks := mkMasks [[true]] [[true]] NaN NaN.


Definition sample_args : Args :=
  mkArgs 0 0 (Fin 0) (Fin 0) (Fin 0) 0 true.

(** Channels 0 and 0 with the defaults of [build_parser] for the
    other options. *)
Definition default_args : Args :=
  mkArgs 0 0 (Fin (25 / 100)) (Fin (20 / 100)) (Fin 0) 0 false.

Definition sample_file : File :=
  mkFile "a" ".czi" (mkArray3 1 [[[Fin 1]]]).

Definition sample_sizes (p : string) : nat * nat := (2%nat, 3%nat).

Definition sample_4d : ndarray := mkNd [2; 6; 6; 6]%nat (fun _ => Fin 1).

Definition sample_5d : ndarray := mkNd [3; 1; 8; 8; 1]%nat (fun _ => Fin 1).

(* ================================================================== *)
(** * The pipeline on binary64 numbers

    numpy computes on IEEE binary64 numbers, and every operation rounds
    to nearest.  Where a property turns on that rounding, the functions
    of [pipeline.py] are read here on the binary64 numbers themselves:
    [PrimFloat.float], with its correctly rounded operations.  Masks,
    shapes, exceptions and the morphology are those defined above. *)

From Stdlib Require Floats.

Module Binary64.

Import PrimFloat.
Local Open Scope float_scope.

Definition image : Type := list (list float).

(** An element count as a float, as numpy's [true_divide] converts it. *)
Definition count (n : nat) : float :=
  of_uint63 (Uint63Axioms.of_Z (Z.of_nat n)).

(** numpy's [pairwise_sum] on a contiguous array of [n] elements: a
    plain loop from [-0.0] when [n < 8]; eight running sums, combined as
    a balanced tree and followed by the remaining elements, when
    [n <= 128]; otherwise the sum of the two parts split at
    [n / 2] rounded down to a multiple of 8. *)
Definition add_each (r v : list float) : list float :=
  map (fun p => fst p + snd p) (combine r v).

Fixpoint unrolled (fuel : nat) (r v : list float) : list float * list float :=
  match fuel with
  | O => (r, v)
  | S fuel =>
      if (List.length v <? 8)%nat then (r, v)
      else unrolled fuel (add_each r (firstn 8 v)) (skipn 8 v)
  end.

Definition block_sum (v : list float) : float :=
  let (r, rest) := unrolled (List.length v) (firstn 8 v) (skipn 8 v) in
  let r i := nth i r 0 in
  let res := ((r 0%nat + r 1%nat) + (r 2%nat + r 3%nat))
             + ((r 4%nat + r 5%nat) + (r 6%nat + r 7%nat)) in
  fold_left add rest res.

Fixpoint pairwise_sum (fuel : nat) (v : list float) : float :=
  let n := List.length v in
  if (n <? 8)%nat then fold_left add v (-0)
  else if (n <=? 128)%nat then block_sum v
  else
    match fuel with
    | O => block_sum v
    | S fuel =>
        let n2 := (n / 2)%nat in
        let n2 := (n2 - n2 mod 8)%nat in
        pairwise_sum fuel (firstn n2 v) + pairwise_sum fuel (skipn n2 v)
    end.

(** [a.sum()]: [add.reduce] starts from the identity and adds the
    pairwise sum of the elements. *)
Definition np_sum (v : list float) : float :=
  0 + pairwise_sum (List.length v) v.

Definition np_mean (v : list float) : float :=
  np_sum v / count (List.length v).

Definition np_var (ddof : nat) (v : list float) : float :=
  let arrmean := np_sum v / count (List.length v) in
  let x := map (fun a => a - arrmean) v in
  let x := map (fun d => d * d) x in
  np_sum x / count (List.length v - ddof).

Definition np_std (ddof : nat) (v : list float) : float :=
  sqrt (np_var ddof v).

(** [img > t] for a scalar [t]. *)
Definition greater (img : image) (t : float) : mask :=
  map (map (fun x => t <? x)) img.

Definition bool_index (values : image) (m : mask) : result (list float) :=
  if shape_eqb (shape values) (shape m)
  then Ok (take_where (ravel values) (ravel m))
  else Raise IndexError.

(** Truth value of a Python float: every float but zero is true. *)
Definition float_truthy (a : float) : bool := negb (a =? 0).

Record Settings : Type := mkSettings {
  lower_k : float;
  upper_k : float;
  blur_sigma : float;
  dilate_size : Z
}.

(** 0.25 and the binary64 number nearest to 0.20. *)
Definition default_settings : Settings :=
  mkSettings 0.25 0x1.999999999999ap-3 0 0%Z.

Record Masks : Type := mkMasks {
  bg : mask;
  agg : mask;
  lower : float;
  upper : float
}.

Definition compute_thresholds (img : image) (lower_k upper_k : float)
  : float * float :=
  let std := np_std 0 (ravel img) in
  let mean := np_mean (ravel img) in
  let lower := mean + lower_k * std in
  let upper := mean + upper_k * std in
  (lower, upper).

Definition _nonzero_mean (values : image) (m : option mask) : result float :=
  v <- match m with
       | None => Ok (ravel values)
       | Some m => bool_index values m
       end ;;
  let v := filter is_finite v in
  if Nat.eqb (List.length v) 0 then Ok nan else Ok (np_mean v).

Definition measure_intensity (main_img red_img : image) (masks : Masks)
  : result (list (string * float)) :=
  let bg := bg masks in
  let agg := agg masks in
  unedited <- _nonzero_mean main_img None ;;
  bg_mean <- _nonzero_mean main_img (Some bg) ;;
  agg_mean <- _nonzero_mean main_img (Some agg) ;;
  red_agg <- _nonzero_mean red_img (Some agg) ;;
  let cytoplasm_mask := logical_and bg (logical_not agg) in
  red_cyto <- _nonzero_mean red_img (Some cytoplasm_mask) ;;
  Ok [ ("Unedited (Intensity)"%string, unedited);
       ("Background Removed (Intensity)"%string, bg_mean);
       ("Aggregates (Intensity)"%string, agg_mean);
       ("Red Aggregates (Intensity)"%string, red_agg);
       ("Red Cytoplasm (Intensity)"%string, red_cyto) ].

Section Pipeline.

Variable gaussian_filter : image -> float -> image.

Definition _prep (img : image) (s : Settings) : image :=
  if float_truthy (blur_sigma s) && (0 <? blur_sigma s)
  then gaussian_filter img (blur_sigma s)
  else img.

Definition make_masks (main_channel_img : image) (s : Settings) : Masks :=
  let img := _prep main_channel_img s in
  let (lower, upper) := compute_thresholds img (lower_k s) (upper_k s) in
  let bg := greater img lower in
  let agg := greater img upper in
  if dilation_enabled (dilate_size s)
  then
    let selem := square (dilate_size s) in
    mkMasks (binary_dilation bg selem) (binary_dilation agg selem) lower upper
  else mkMasks bg agg lower upper.

End Pipeline.



(** The smoothing filter that returns its input. *)
Definition no_filter (img : image) (sigma : float) : image := img.




End Binary64.

(* ================================================================== *)
(** * Properties *)

(** ** Comparisons on reals *)

Lemma Rltb_true (x y : R) : Rltb x y = true <-> x < y.
Proof. unfold Rltb; destruct (Rlt_dec x y); split; auto; discriminate. Qed.

Lemma Rltb_false (x y : R) : Rltb x y = false <-> y <= x.
Proof.
  unfold Rltb; destruct (Rlt_dec x y); split; auto; try discriminate; lra.
Qed.

Lemma Rleb_true (x y : R) : Rleb x y = true <-> x <= y.
Proof. unfold Rleb; destruct (Rle_dec x y); split; auto; discriminate. Qed.

Lemma Rleb_false (x y : R) : Rleb x y = false <-> y < x.
Proof.
  unfold Rleb; destruct (Rle_dec x y); split; auto; try discriminate; lra.
Qed.

Lemma Reqb_true (x y : R) : Reqb x y = true <-> x = y.
Proof. unfold Reqb; destruct (Req_dec_T x y); split; auto; discriminate. Qed.

Lemma Reqb_false (x y : R) : Reqb x y = false <-> x <> y.
Proof.
  unfold Reqb; destruct (Req_dec_T x y); split; auto; try discriminate.
  intros H; contradiction.
Qed.

Lemma Reqb_refl (x : R) : Reqb x x = true.
Proof. now apply Reqb_true. Qed.

(** Decides one comparison between real numerals or simple expressions. *)
Ltac rcmp :=
  match goal with
  | |- Rltb _ _ = true => apply Rltb_true; lra
  | |- Rltb _ _ = false => apply Rltb_false; lra
  | |- Rleb _ _ = true => apply Rleb_true; lra
  | |- Rleb _ _ = false => apply Rleb_false; lra
  | |- Reqb _ _ = true => apply Reqb_true; lra
  | |- Reqb _ _ = false => apply Reqb_false; lra
  end.

(** ** The partition coefficient *)

Lemma fdiv_finite (x y : R) : y <> 0 -> fdiv (Fin x) (Fin y) = Fin (x / y).
Proof.
  intros Hy; unfold fdiv.
  now replace (Reqb y 0) with false by (symmetry; now apply Reqb_false).
Qed.

(** C1. [partition_coefficient a b] is NaN when the denominator [b] is
    NaN, infinite or zero; for every other [b] (finite and nonzero,
    however small) it is the quotient [a / b], which for a finite [a] is
    the exact real quotient; and the call never raises. *)
Theorem partition_coefficient_spec (a b : float) :
  (isnan b = true \/ isinf b = true \/ b = Fin 0 ->
     partition_coefficient a (Some b) = Ok NaN)
  /\ (forall y : R, b = Fin y -> y <> 0 ->
        partition_coefficient a (Some b) = Ok (fdiv a b)
        /\ forall x : R, a = Fin x ->
             partition_coefficient a (Some b) = Ok (Fin (x / y)))
  /\ (exists r : float, partition_coefficient a (Some b) = Ok r).
Proof.
  split; [|split].
  - intros [H | [H | H]].
    + destruct b; try discriminate; reflexivity.
    + destruct b; try discriminate; reflexivity.
    + subst b; cbn. now rewrite Reqb_refl.
  - intros y -> Hy.
    assert (E : partition_coefficient a (Some (Fin y)) = Ok (fdiv a (Fin y))).
    { unfold partition_coefficient, py_truediv; cbn.
      now replace (Reqb y 0) with false by (symmetry; now apply Reqb_false). }
    split; [exact E|].
    intros x ->. rewrite E. now rewrite fdiv_finite.
  - unfold partition_coefficient, py_truediv.
    destruct (negb (isfinite b) || feqb b (Fin 0)) eqn:G; [now eexists|].
    apply orb_false_elim in G as [_ G]. rewrite G. now eexists.
Qed.

(** ** Sums and averages of finite samples *)

Lemma fold_fadd_fin (xs : list R) (a : R) :
  fold_left fadd (map Fin xs) (Fin a) = Fin (a + Rsum xs).
Proof.
  unfold Rsum.
  revert a; induction xs as [|x xs IH]; intros a; cbn.
  - f_equal; lra.
  - rewrite IH; f_equal; lra.
Qed.

Lemma np_sum_fin (xs : list R) : np_sum (map Fin xs) = Fin (Rsum xs).
Proof. unfold np_sum; rewrite fold_fadd_fin; f_equal; lra. Qed.

Lemma INR_length_nonzero {A : Type} (l : list A) : l <> [] -> INR (List.length l) <> 0.
Proof.
  destruct l as [|a l]; [congruence|]; intros _.
  apply not_0_INR; cbn; lia.
Qed.

Lemma np_mean_fin (xs : list R) :
  xs <> [] -> np_mean (map Fin xs) = Fin (arithmetic_mean xs).
Proof.
  intros Hne; unfold np_mean, arithmetic_mean.
  rewrite np_sum_fin, length_map.
  now apply fdiv_finite, INR_length_nonzero.
Qed.

Lemma filter_isfinite (v : list float) :
  filter isfinite v = map Fin (finite_values v).
Proof.
  induction v as [|a v IH]; [reflexivity|].
  destruct a; cbn; rewrite IH; reflexivity.
Qed.

(** ** Boolean indexing, pixel by pixel *)

Lemma flat_map_seq_shift {A : Type} (F : nat -> list A) (n s : nat) :
  flat_map F (seq (S s) n) = flat_map (fun j => F (S j)) (seq s n).
Proof.
  rewrite <- seq_shift.
  induction (seq s n) as [|k l IH]; cbn; [reflexivity|now rewrite IH].
Qed.

Lemma take_where_app {A : Type} (xs xs' : list A) (bs bs' : list bool) :
  List.length xs = List.length bs ->
  take_where (xs ++ xs') (bs ++ bs') = take_where xs bs ++ take_where xs' bs'.
Proof.
  revert bs; induction xs as [|x xs IH]; intros [|b bs] H; try discriminate.
  - reflexivity.
  - injection H as H. specialize (IH bs H).
    unfold take_where in *; cbn.
    destruct b; cbn; now rewrite IH.
Qed.

Lemma take_where_row {A : Type} (d : A) (r : list A) (b : list bool) :
  List.length r = List.length b ->
  take_where r b =
  flat_map (fun j => if nth j b false then [nth j r d] else [])
           (seq 0 (List.length r)).
Proof.
  revert b; induction r as [|x r IH]; intros [|c b] H; try discriminate.
  - reflexivity.
  - injection H as H.
    cbn [List.length seq flat_map nth].
    rewrite flat_map_seq_shift. cbn [nth].
    rewrite <- (IH b H).
    unfold take_where; cbn. now destruct c.
Qed.

Lemma bool_index_pixels (values : image) (m : mask) :
  shape m = shape values ->
  take_where (ravel values) (ravel m) = pixels_where values (mask_at m).
Proof.
  unfold ravel, pixels_where.
  revert m; induction values as [|r values IH]; intros [|b m] H; try discriminate.
  - reflexivity.
  - injection H as Hr Hs.
    cbn [concat List.length seq flat_map].
    rewrite take_where_app by auto.
    rewrite flat_map_seq_shift, (IH m Hs).
    f_equal.
    unfold pixel, mask_at; cbn [nth].
    now apply take_where_row.
Qed.

Lemma ravel_pixels (values : image) :
  ravel values = pixels_where values (fun _ _ => true).
Proof.
  unfold ravel, pixels_where.
  induction values as [|r values IH]; [reflexivity|].
  cbn [concat List.length seq flat_map].
  rewrite flat_map_seq_shift, IH. f_equal.
  unfold pixel; cbn [nth].
  clear. induction r as [|x r IHr]; [reflexivity|].
  cbn [List.length seq flat_map nth app].
  now rewrite flat_map_seq_shift, <- IHr.
Qed.

Lemma shape_eqb_refl (s : list nat) : shape_eqb s s = true.
Proof. unfold shape_eqb; now destruct (list_eq_dec Nat.eq_dec s s). Qed.

Lemma pixels_where_none (img : image) (p : nat -> nat -> bool) :
  (forall i j, p i j = false) -> pixels_where img p = [].
Proof.
  intros Hp; unfold pixels_where.
  induction (seq 0 (List.length img)) as [|i l IH]; [reflexivity|].
  cbn; rewrite IH, app_nil_r.
  induction (seq 0 (List.length (nth i img []))) as [|j l' IH']; [reflexivity|].
  cbn; now rewrite Hp.
Qed.

(** ** The region mean *)

Lemma finite_values_nil (v : list float) :
  Forall (fun a => isfinite a = false) v -> finite_values v = [].
Proof.
  induction 1 as [|a v Ha _ IH]; [reflexivity|].
  destruct a; try discriminate; exact IH.
Qed.

Lemma nonzero_mean_region (values : image) (m : option mask) :
  (forall mk, m = Some mk -> shape mk = shape values) ->
  _nonzero_mean values m =
  Ok (match finite_values (region values m) with
      | [] => NaN
      | _ :: _ => Fin (arithmetic_mean (finite_values (region values m)))
      end).
Proof.
  intros Hs. unfold _nonzero_mean, region.
  assert (E : match m with
              | None => Ok (ravel values)
              | Some mk => bool_index values mk
              end
              = Ok (pixels_where values
                      (fun i j => match m with
                                  | None => true
                                  | Some mk => mask_at mk i j
                                  end))).
  { destruct m as [mk|].
    - unfold bool_index. rewrite (Hs mk eq_refl), shape_eqb_refl.
      rewrite bool_index_pixels by (now apply Hs). reflexivity.
    - now rewrite ravel_pixels. }
  rewrite E; cbn [bind].
  rewrite filter_isfinite, length_map.
  destruct (finite_values _) as [|x kept] eqn:K; [reflexivity|].
  cbn [List.length Nat.eqb].
  now rewrite np_mean_fin.
Qed.

(** C2. For an image and the whole-image sentinel or a mask of the
    image's shape, the region mean ranges over the pixels where the mask
    is true (all pixels for the sentinel), keeps only their finite
    samples, and: returns NaN, not 0 and without raising, when no sample
    is kept, which is the case for a mask with no true pixel and for a
    region whose samples are all NaN or infinite; returns the arithmetic
    mean of the kept samples otherwise. *)
Theorem nonzero_mean_spec (values : image) (m : option mask) :
  (forall mk, m = Some mk -> shape mk = shape values) ->
  let kept := finite_values (region values m) in
  (kept = [] ->
     _nonzero_mean values m = Ok NaN /\ _nonzero_mean values m <> Ok (Fin 0))
  /\ (kept <> [] -> _nonzero_mean values m = Ok (Fin (arithmetic_mean kept)))
  /\ (forall mk, m = Some mk -> all_false mk -> _nonzero_mean values m = Ok NaN)
  /\ (Forall (fun a => isfinite a = false) (region values m) ->
        _nonzero_mean values m = Ok NaN)
  /\ (forall x : R, In x kept <-> In (Fin x) (region values m))
  /\ (exists r : float, _nonzero_mean values m = Ok r).
Proof.
  intros Hs kept.
  pose proof (nonzero_mean_region values m Hs) as E. fold kept in E.
  assert (Hnil : kept = [] -> _nonzero_mean values m = Ok NaN)
    by (intros Hk; rewrite E, Hk; reflexivity).
  split; [|split; [|split; [|split; [|split]]]].
  - intros Hk. split; [now apply Hnil|]. rewrite (Hnil Hk). discriminate.
  - intros Hk. rewrite E. destruct kept; [congruence|reflexivity].
  - intros mk -> Hf. apply Hnil.
    unfold kept, region. now rewrite pixels_where_none.
  - intros Hf. apply Hnil. unfold kept. now apply finite_values_nil.
  - intros x. unfold kept, finite_values. rewrite in_flat_map. split.
    + intros [a [Ha Hx]]. destruct a; cbn in Hx; try tauto.
      destruct Hx as [->|[]]; exact Ha.
    + intros Hx. exists (Fin x); split; [exact Hx|now left].
  - rewrite E; eexists; reflexivity.
Qed.

(** ** Statistics of a finite image *)

Lemma ravel_finite (xs : list (list R)) :
  ravel (finite_image xs) = map Fin (concat xs).
Proof. unfold ravel, finite_image. now rewrite concat_map. Qed.

Lemma Rsum_squares_nonneg (f : R -> R) (xs : list R) :
  0 <= Rsum (map (fun x => f x * f x) xs).
Proof.
  unfold Rsum; induction xs as [|x xs IH]; cbn; [lra|].
  pose proof (Rle_0_sqr (f x)) as Hx. unfold Rsqr in Hx. lra.
Qed.

Lemma population_variance_nonneg (xs : list R) : 0 <= population_variance xs.
Proof.
  unfold population_variance.
  destruct xs as [|x xs].
  - cbn. lra.
  - apply Rmult_le_pos; [apply Rsum_squares_nonneg|].
    left. apply Rinv_0_lt_compat, lt_0_INR. cbn; lia.
Qed.

Lemma population_std_nonneg (xs : list R) : 0 <= population_std xs.
Proof. apply sqrt_pos. Qed.

Lemma np_var_fin (xs : list R) :
  xs <> [] -> np_var 0 (map Fin xs) = Fin (population_variance xs).
Proof.
  intros Hne. unfold np_var.
  rewrite np_sum_fin, length_map, Nat.sub_0_r.
  rewrite fdiv_finite by now apply INR_length_nonzero.
  fold (arithmetic_mean xs).
  rewrite !map_map.
  replace (map (fun x => fmul (fsub (Fin x) (Fin (arithmetic_mean xs)))
                              (fsub (Fin x) (Fin (arithmetic_mean xs)))) xs)
    with (map Fin (map (fun x => (x - arithmetic_mean xs)
                                 * (x - arithmetic_mean xs)) xs)).
  - rewrite np_sum_fin.
    now apply fdiv_finite, INR_length_nonzero.
  - rewrite map_map. apply map_ext. intros x; cbn. f_equal.
Qed.

Lemma np_std_fin (xs : list R) :
  xs <> [] -> np_std 0 (map Fin xs) = Fin (population_std xs).
Proof.
  intros Hne. unfold np_std. rewrite np_var_fin by assumption.
  unfold fsqrt, population_std.
  replace (Rltb (population_variance xs) 0) with false; [reflexivity|].
  symmetry; apply Rltb_false, population_variance_nonneg.
Qed.

Lemma compute_thresholds_ravel (img : image) (ys : list R) (lk uk : R) :
  ravel img = map Fin ys -> ys <> [] ->
  compute_thresholds img (Fin lk) (Fin uk) =
  (Fin (arithmetic_mean ys + lk * population_std ys),
   Fin (arithmetic_mean ys + uk * population_std ys)).
Proof.
  intros Hr Hne. unfold compute_thresholds.
  rewrite Hr, np_std_fin, np_mean_fin by assumption.
  reflexivity.
Qed.

Lemma compute_thresholds_finite (xs : list (list R)) (lk uk : R) :
  concat xs <> [] ->
  compute_thresholds (finite_image xs) (Fin lk) (Fin uk) =
  (Fin (arithmetic_mean (concat xs) + lk * population_std (concat xs)),
   Fin (arithmetic_mean (concat xs) + uk * population_std (concat xs))).
Proof.
  intros Hne. apply compute_thresholds_ravel; [apply ravel_finite|exact Hne].
Qed.

(** C3. [compute_thresholds] returns [mean + lower_k * std] and
    [mean + upper_k * std], where [mean] is the sum of all pixels over
    their count N and [std] is the square root of the summed squared
    deviations over N (not N - 1); on an image of real values with at
    least one pixel these are the arithmetic average and the population
    standard deviation of the pixels. *)
Theorem compute_thresholds_spec (img : image) (lower_k upper_k : float) :
  let v := ravel img in
  let N := Fin (INR (List.length v)) in
  let mean := fdiv (np_sum v) N in
  let squares := map (fun a => fmul (fsub a mean) (fsub a mean)) v in
  let std := fsqrt (fdiv (np_sum squares) N) in
  compute_thresholds img lower_k upper_k =
    (fadd mean (fmul lower_k std), fadd mean (fmul upper_k std))
  /\ (forall (xs : list (list R)) (lk uk : R),
        img = finite_image xs -> lower_k = Fin lk -> upper_k = Fin uk ->
        concat xs <> [] ->
        compute_thresholds img lower_k upper_k =
          (Fin (arithmetic_mean (concat xs) + lk * population_std (concat xs)),
           Fin (arithmetic_mean (concat xs) + uk * population_std (concat xs)))).
Proof.
  split.
  - unfold compute_thresholds, np_std, np_var, np_mean.
    rewrite Nat.sub_0_r, map_map. reflexivity.
  - intros xs lk uk -> -> -> Hne. now apply compute_thresholds_finite.
Qed.

(** ** Index-wise maps and thresholded masks *)

Lemma length_mapi {A B : Type} (f : nat -> A -> B) (l : list A) :
  List.length (mapi f l) = List.length l.
Proof.
  unfold mapi. rewrite length_map, length_combine, length_seq. lia.
Qed.

Lemma nth_mapi {A B : Type} (f : nat -> A -> B) (l : list A) (i : nat) (d : B) (e : A) :
  (i < List.length l)%nat -> nth i (mapi f l) d = f i (nth i l e).
Proof.
  intros Hi. unfold mapi.
  rewrite (nth_indep _ d (f 0%nat e))
    by (rewrite length_map, length_combine, length_seq; lia).
  change (f 0%nat e) with ((fun p => f (fst p) (snd p)) (0%nat, e)).
  rewrite map_nth, combine_nth by now rewrite length_seq.
  cbn [fst snd]. now rewrite seq_nth.
Qed.

Lemma nth_mapi_default {A B : Type} (f : nat -> A -> B) (l : list A) (i : nat) (d : B) :
  (List.length l <= i)%nat -> nth i (mapi f l) d = d.
Proof. intros Hi. apply nth_overflow. now rewrite length_mapi. Qed.

Lemma mask_at_greater (img : image) (t : float) (i j : nat) :
  mask_at (greater img t) i j = fgtb (pixel img i j) t.
Proof.
  unfold mask_at, greater, pixel.
  change (@nil bool) with (map (fun x => fgtb x t) []).
  rewrite map_nth.
  change false with ((fun x => fgtb x t) NaN).
  now rewrite map_nth.
Qed.

Lemma shape_greater (img : image) (t : float) : shape (greater img t) = shape img.
Proof.
  unfold shape, greater. rewrite map_map. apply map_ext.
  intros row. apply length_map.
Qed.

Lemma shape_binary_dilation (m selem : mask) :
  shape (binary_dilation m selem) = shape m.
Proof.
  unfold shape, binary_dilation, mapi.
  rewrite map_map.
  set (g := fun p : nat * list bool => _).
  assert (H : forall (l : list (list bool)) (s : nat),
             map g (combine (seq s (List.length l)) l) = map (@List.length bool) l).
  { induction l as [|row l IH]; intros s; [reflexivity|].
    cbn [List.length seq combine map]. rewrite IH. f_equal.
    unfold g; cbn [fst snd].
    now rewrite length_map, length_combine, length_seq, Nat.min_id. }
  apply H.
Qed.

Lemma fgtb_irrefl (a : float) : fgtb a a = false.
Proof. destruct a; try reflexivity. cbn. apply Rltb_false. lra. Qed.

Lemma fgtb_finite (x y : R) : fgtb (Fin x) (Fin y) = true <-> y < x.
Proof. cbn. apply Rltb_true. Qed.

(** ** Binary dilation *)

Lemma mask_at_dilation_in (m selem : mask) (i j : nat) :
  in_bounds m i j ->
  mask_at (binary_dilation m selem) i j = footprint_meets m selem i j.
Proof.
  intros [Hi Hj]. unfold mask_at, binary_dilation.
  rewrite (nth_mapi _ m i [] []) by assumption.
  now rewrite (nth_mapi _ (nth i m []) j false false) by assumption.
Qed.

Lemma mask_at_dilation_out (m selem : mask) (i j : nat) :
  ~ in_bounds m i j -> mask_at (binary_dilation m selem) i j = false.
Proof.
  intros Hout. unfold mask_at, binary_dilation.
  destruct (Nat.lt_ge_cases i (List.length m)) as [Hi|Hi].
  - rewrite (nth_mapi _ m i [] []) by assumption.
    apply nth_mapi_default.
    destruct (Nat.lt_ge_cases j (List.length (nth i m []))) as [Hj|Hj]; [|exact Hj].
    exfalso; apply Hout; now split.
  - rewrite nth_mapi_default by assumption. now destruct j.
Qed.

Lemma mask_at_out (m : mask) (i j : nat) :
  ~ in_bounds m i j -> mask_at m i j = false.
Proof.
  intros Hout. unfold mask_at.
  destruct (Nat.lt_ge_cases i (List.length m)) as [Hi|Hi].
  - apply nth_overflow.
    destruct (Nat.lt_ge_cases j (List.length (nth i m []))) as [Hj|Hj]; [|exact Hj].
    exfalso; apply Hout; now split.
  - rewrite (nth_overflow m) by assumption. now destruct j.
Qed.

Lemma get2_of_nat (m : mask) (i j : nat) :
  get2 m (Z.of_nat i) (Z.of_nat j) = mask_at m i j.
Proof.
  unfold get2, mask_at.
  replace (Z.of_nat i <? 0)%Z with false by (symmetry; apply Z.ltb_ge; lia).
  replace (Z.of_nat j <? 0)%Z with false by (symmetry; apply Z.ltb_ge; lia).
  cbn. now rewrite !Nat2Z.id.
Qed.

Lemma get2_true (m : mask) (a b : Z) :
  get2 m a b = true <->
  exists i j : nat, a = Z.of_nat i /\ b = Z.of_nat j /\ mask_at m i j = true.
Proof.
  split.
  - unfold get2. destruct ((a <? 0) || (b <? 0))%Z eqn:E; [discriminate|].
    apply orb_false_elim in E as [Ea Eb].
    apply Z.ltb_ge in Ea, Eb. intros H.
    exists (Z.to_nat a), (Z.to_nat b). unfold mask_at.
    repeat split; try lia; exact H.
  - intros (i & j & -> & -> & H). now rewrite get2_of_nat.
Qed.

Lemma in_indices (n a : Z) : In a (indices n) <-> (0 <= a < n)%Z.
Proof.
  unfold indices. rewrite in_map_iff. split.
  - intros (k & <- & Hk). apply in_seq in Hk. lia.
  - intros Ha. exists (Z.to_nat a). split; [lia|]. apply in_seq. lia.
Qed.

Lemma footprint_meets_true (m selem : mask) (i j : nat) :
  footprint_meets m selem i j = true <->
  exists a b : Z,
    (0 <= a < height selem)%Z /\ (0 <= b < width selem)%Z /\
    get2 selem a b = true /\
    get2 m (Z.of_nat i - (a - height selem / 2))
           (Z.of_nat j - (b - width selem / 2)) = true.
Proof.
  unfold footprint_meets. rewrite existsb_exists. split.
  - intros (a & Ha & H). apply existsb_exists in H as (b & Hb & H).
    apply andb_true_iff in H as [H1 H2].
    apply in_indices in Ha, Hb. now exists a, b.
  - intros (a & b & Ha & Hb & H1 & H2).
    exists a. split; [now apply in_indices|].
    apply existsb_exists. exists b. split; [now apply in_indices|].
    now rewrite H1, H2.
Qed.

Lemma height_square (n : Z) : (0 <= n)%Z -> height (square n) = n.
Proof. intros Hn. unfold height, square. rewrite repeat_length. lia. Qed.

Lemma width_square (n : Z) : (0 < n)%Z -> width (square n) = n.
Proof.
  intros Hn. unfold width, square.
  destruct (Z.to_nat n) as [|k] eqn:E; [lia|].
  cbn [repeat hd]. change (true :: repeat true k) with (repeat true (S k)).
  rewrite repeat_length. lia.
Qed.

Lemma get2_square (n a b : Z) :
  (0 <= a < n)%Z -> (0 <= b < n)%Z -> get2 (square n) a b = true.
Proof.
  intros Ha Hb. unfold get2, square.
  replace (a <? 0)%Z with false by (symmetry; apply Z.ltb_ge; lia).
  replace (b <? 0)%Z with false by (symmetry; apply Z.ltb_ge; lia).
  cbn [orb].
  rewrite (nth_indep _ [] (repeat true (Z.to_nat n)))
    by (rewrite repeat_length; lia).
  rewrite nth_repeat.
  rewrite (nth_indep _ false true) by (rewrite repeat_length; lia).
  apply nth_repeat.
Qed.

(** A pixel of the dilation by a square of odd side [2 r + 1] is true
    exactly when it lies in the array and some true pixel of the mask is
    within [r] rows and [r] columns of it. *)
Lemma dilation_square_spec (m : mask) (r : Z) (i j : nat) :
  (0 <= r)%Z ->
  mask_at (binary_dilation m (square (2 * r + 1))) i j = true <->
  in_bounds m i j /\
  exists i' j' : nat,
    (Z.abs (Z.of_nat i - Z.of_nat i') <= r)%Z /\
    (Z.abs (Z.of_nat j - Z.of_nat j') <= r)%Z /\
    mask_at m i' j' = true.
Proof.
  intros Hr.
  assert (Hh : height (square (2 * r + 1)) = (2 * r + 1)%Z)
    by (apply height_square; lia).
  assert (Hw : width (square (2 * r + 1)) = (2 * r + 1)%Z)
    by (apply width_square; lia).
  assert (Hc : ((2 * r + 1) / 2 = r)%Z)
    by (symmetry; apply (Z.div_unique _ _ _ 1%Z); lia).
  split.
  - intros H.
    assert (Hin : in_bounds m i j).
    { destruct (Nat.lt_ge_cases i (List.length m)) as [Hi|Hi];
        [destruct (Nat.lt_ge_cases j (List.length (nth i m []))) as [Hj|Hj]|].
      - now split.
      - rewrite mask_at_dilation_out in H; [discriminate|].
        intros [_ Hj']; lia.
      - rewrite mask_at_dilation_out in H; [discriminate|].
        intros [Hi' _]; lia. }
    split; [exact Hin|].
    rewrite mask_at_dilation_in in H by assumption.
    apply footprint_meets_true in H as (a & b & Ha & Hb & _ & H).
    rewrite Hh, Hw, Hc in *.
    apply get2_true in H as (i' & j' & Ei & Ej & H).
    exists i', j'. repeat split; try lia; exact H.
  - intros (Hin & i' & j' & Hi & Hj & H).
    rewrite mask_at_dilation_in by assumption.
    apply footprint_meets_true.
    exists (Z.of_nat i - Z.of_nat i' + r)%Z, (Z.of_nat j - Z.of_nat j' + r)%Z.
    rewrite Hh, Hw, Hc.
    repeat split; try lia.
    + apply get2_square; lia.
    + replace (Z.of_nat i - (Z.of_nat i - Z.of_nat i' + r - r))%Z
        with (Z.of_nat i') by lia.
      replace (Z.of_nat j - (Z.of_nat j - Z.of_nat j' + r - r))%Z
        with (Z.of_nat j') by lia.
      now rewrite get2_of_nat.
Qed.

(** ** Mask construction *)

Lemma dilation_enabled_true (d : Z) :
  dilation_enabled d = true <-> (3 <= d)%Z /\ Z.odd d = true.
Proof.
  unfold dilation_enabled. rewrite !andb_true_iff, negb_true_iff.
  rewrite Z.eqb_neq, Z.leb_le, Z.eqb_eq, Zodd_mod, Z.eqb_eq. intuition lia.
Qed.

Lemma dilation_enabled_false (d : Z) :
  dilation_enabled d = false <-> (d < 3)%Z \/ Z.even d = true.
Proof.
  rewrite <- not_true_iff_false, dilation_enabled_true.
  rewrite <- Z.negb_odd, negb_true_iff.
  destruct (Z.odd d); intuition (try lia; try discriminate).
Qed.

Lemma dilation_enabled_radius (d : Z) :
  dilation_enabled d = true -> exists r : Z, (1 <= r)%Z /\ d = (2 * r + 1)%Z.
Proof.
  intros H. apply dilation_enabled_true in H as [H3 Ho].
  apply Z.odd_spec in Ho as [r ->]. exists r. split; lia.
Qed.

Lemma prep_no_blur (gf : image -> float -> image) (img : image) (s : Settings) :
  blur_sigma s = Fin 0 -> _prep gf img s = img.
Proof.
  intros H. unfold _prep, float_truthy. rewrite H. cbn. now rewrite Reqb_refl.
Qed.

Lemma make_masks_eval (gf : image -> float -> image) (img pre : image)
      (s : Settings) (lo up : float) :
  _prep gf img s = pre ->
  compute_thresholds pre (lower_k s) (upper_k s) = (lo, up) ->
  make_masks gf img s =
  if dilation_enabled (dilate_size s)
  then mkMasks (binary_dilation (greater pre lo) (square (dilate_size s)))
               (binary_dilation (greater pre up) (square (dilate_size s))) lo up
  else mkMasks (greater pre lo) (greater pre up) lo up.
Proof. intros Hp Ht. unfold make_masks. now rewrite Hp, Ht. Qed.

Section MaskProperties.

Variable gaussian_filter : image -> float -> image.

(** The smoothing filter returns an array of the shape of its input. *)
Hypothesis gaussian_filter_shape :
  forall (img : image) (sigma : float),
    shape (gaussian_filter img sigma) = shape img.

Lemma shape_prep (img : image) (s : Settings) :
  shape (_prep gaussian_filter img s) = shape img.
Proof.
  unfold _prep.
  destruct (float_truthy (blur_sigma s) && fgtb (blur_sigma s) (Fin 0));
    [apply gaussian_filter_shape|reflexivity].
Qed.

(** C4, as amended.  [make_masks] computes the thresholds on the
    (possibly smoothed) image and returns them alongside two masks of
    the input's shape.  When the dilation step is skipped, the
    background mask is true exactly at the pixels strictly greater than
    the lower threshold and the aggregate mask exactly at those strictly
    greater than the upper one, so a pixel equal to a threshold is
    excluded; when [dilate_size] is odd and at least 3, the returned
    masks are the binary dilations of those two masks by the square of
    that side. *)
Theorem make_masks_spec (img : image) (s : Settings) :
  let pre := _prep gaussian_filter img s in
  let r := make_masks gaussian_filter img s in
  (lower r, upper r) = compute_thresholds pre (lower_k s) (upper_k s)
  /\ shape (bg r) = shape img
  /\ shape (agg r) = shape img
  /\ (dilation_enabled (dilate_size s) = false ->
        (forall i j : nat, mask_at (bg r) i j = fgtb (pixel pre i j) (lower r))
        /\ (forall i j : nat, mask_at (agg r) i j = fgtb (pixel pre i j) (upper r))
        /\ (forall i j : nat, pixel pre i j = lower r -> mask_at (bg r) i j = false)
        /\ (forall i j : nat, pixel pre i j = upper r -> mask_at (agg r) i j = false))
  /\ (dilation_enabled (dilate_size s) = true ->
        bg r = binary_dilation (greater pre (lower r)) (square (dilate_size s))
        /\ agg r = binary_dilation (greater pre (upper r)) (square (dilate_size s))).
Proof.
  intros pre r.
  pose proof (shape_prep img s) as Hsp. fold pre in Hsp.
  destruct (compute_thresholds pre (lower_k s) (upper_k s)) as [lo up] eqn:Ht.
  assert (Er : r = if dilation_enabled (dilate_size s)
                   then mkMasks (binary_dilation (greater pre lo) (square (dilate_size s)))
                                (binary_dilation (greater pre up) (square (dilate_size s)))
                                lo up
                   else mkMasks (greater pre lo) (greater pre up) lo up)
    by (now apply make_masks_eval).
  clearbody r. subst r.
  destruct (dilation_enabled (dilate_size s)); cbn [bg agg lower upper].
  - repeat split; try discriminate.
    + now rewrite shape_binary_dilation, shape_greater, Hsp.
    + now rewrite shape_binary_dilation, shape_greater, Hsp.
  - split; [reflexivity|].
    split; [now rewrite shape_greater, Hsp|].
    split; [now rewrite shape_greater, Hsp|].
    split; [|discriminate].
    intros _. repeat split; intros i j.
    + apply mask_at_greater.
    + apply mask_at_greater.
    + intros E. rewrite mask_at_greater, E. apply fgtb_irrefl.
    + intros E. rewrite mask_at_greater, E. apply fgtb_irrefl.
Qed.

End MaskProperties.

(** ** Intensity measurement *)

Lemma nonzero_mean_ok (values : image) (m : mask) :
  shape m = shape values ->
  _nonzero_mean values (Some m) = Ok (mean_in_region values (Some m)).
Proof.
  intros Hs. unfold mean_in_region. apply nonzero_mean_region.
  now intros mk [= <-].
Qed.

Lemma nonzero_mean_whole (values : image) :
  _nonzero_mean values None = Ok (mean_in_region values None).
Proof.
  unfold mean_in_region. apply nonzero_mean_region. discriminate.
Qed.

Lemma nth_and_not (r1 r2 : list bool) (j : nat) :
  List.length r1 = List.length r2 ->
  nth j (map (fun p => fst p && snd p) (combine r1 (map negb r2))) false
  = nth j r1 false && negb (nth j r2 false).
Proof.
  revert r2 j; induction r1 as [|x r1 IH]; intros [|y r2] j H; try discriminate.
  - now destruct j.
  - injection H as H. destruct j; cbn; [reflexivity|now apply IH].
Qed.

Lemma mask_at_and_not (a b : mask) :
  shape a = shape b ->
  forall i j : nat,
    mask_at (logical_and a (logical_not b)) i j
    = mask_at a i j && negb (mask_at b i j).
Proof.
  unfold mask_at, logical_and, logical_not.
  revert b; induction a as [|ra a IH]; intros [|rb b] Hs i j; try discriminate.
  - now destruct i, j.
  - injection Hs as Hr Hs. destruct i; cbn [map combine nth fst snd].
    + now apply nth_and_not.
    + now apply IH.
Qed.

Lemma shape_and_not (a b : mask) :
  shape a = shape b -> shape (logical_and a (logical_not b)) = shape a.
Proof.
  unfold shape, logical_and, logical_not.
  revert b; induction a as [|ra a IH]; intros [|rb b] Hs; try discriminate.
  - reflexivity.
  - injection Hs as Hr Hs. cbn [map combine fst snd]. rewrite (IH b Hs).
    f_equal. rewrite length_map, length_combine, length_map. lia.
Qed.

Lemma measure_intensity_eval (main_img red_img : image) (masks : Masks) :
  shape (bg masks) = shape main_img ->
  shape (agg masks) = shape main_img ->
  shape red_img = shape main_img ->
  let cytoplasm := logical_and (bg masks) (logical_not (agg masks)) in
  measure_intensity main_img red_img masks =
    Ok [ ("Unedited (Intensity)"%string, mean_in_region main_img None);
         ("Background Removed (Intensity)"%string,
            mean_in_region main_img (Some (bg masks)));
         ("Aggregates (Intensity)"%string,
            mean_in_region main_img (Some (agg masks)));
         ("Red Aggregates (Intensity)"%string,
            mean_in_region red_img (Some (agg masks)));
         ("Red Cytoplasm (Intensity)"%string,
            mean_in_region red_img (Some cytoplasm)) ]
  /\ shape cytoplasm = shape main_img
  /\ (forall i j : nat,
        mask_at cytoplasm i j
        = mask_at (bg masks) i j && negb (mask_at (agg masks) i j)).
Proof.
  intros Hb Ha Hr cytoplasm.
  assert (Hc : shape cytoplasm = shape main_img).
  { unfold cytoplasm. rewrite shape_and_not; congruence. }
  split; [|split; [exact Hc|]].
  - unfold measure_intensity. fold cytoplasm.
    rewrite nonzero_mean_whole; cbn [bind].
    rewrite (nonzero_mean_ok main_img (bg masks)) by assumption; cbn [bind].
    rewrite (nonzero_mean_ok main_img (agg masks)) by assumption; cbn [bind].
    rewrite (nonzero_mean_ok red_img (agg masks)) by congruence; cbn [bind].
    rewrite (nonzero_mean_ok red_img cytoplasm) by congruence; cbn [bind].
    reflexivity.
  - apply mask_at_and_not. congruence.
Qed.

(** C5. For a primary image, a secondary image and masks of the
    images' shape, [measure_intensity] returns exactly five named means,
    in this order: the whole primary image, the primary image in the
    background mask, the primary image in the aggregate mask, the
    secondary image in the aggregate mask and the secondary image in the
    cytoplasm mask, where the cytoplasm mask is formed in the call from
    the two masks as background and not aggregate, pixel by pixel. *)
Theorem measure_intensity_spec (main_img red_img : image) (masks : Masks) :
  shape (bg masks) = shape main_img ->
  shape (agg masks) = shape main_img ->
  shape red_img = shape main_img ->
  let cytoplasm := logical_and (bg masks) (logical_not (agg masks)) in
  measure_intensity main_img red_img masks =
    Ok [ ("Unedited (Intensity)"%string, mean_in_region main_img None);
         ("Background Removed (Intensity)"%string,
            mean_in_region main_img (Some (bg masks)));
         ("Aggregates (Intensity)"%string,
            mean_in_region main_img (Some (agg masks)));
         ("Red Aggregates (Intensity)"%string,
            mean_in_region red_img (Some (agg masks)));
         ("Red Cytoplasm (Intensity)"%string,
            mean_in_region red_img (Some cytoplasm)) ]
  /\ shape cytoplasm = shape main_img
  /\ (forall i j : nat,
        mask_at cytoplasm i j
        = mask_at (bg masks) i j && negb (mask_at (agg masks) i j)).
Proof. apply measure_intensity_eval. Qed.

(** ** Arrays of one value *)

Lemma Rsum_repeat (c : R) (n : nat) : Rsum (repeat c n) = INR n * c.
Proof.
  unfold Rsum. induction n as [|n IH]; [cbn; lra|].
  cbn [repeat fold_right]. rewrite IH, S_INR. lra.
Qed.

Lemma arithmetic_mean_repeat (c : R) (n : nat) :
  (0 < n)%nat -> arithmetic_mean (repeat c n) = c.
Proof.
  intros Hn. unfold arithmetic_mean. rewrite Rsum_repeat, repeat_length.
  field. apply not_0_INR. lia.
Qed.

Lemma finite_values_fin (ys : list R) : finite_values (map Fin ys) = ys.
Proof.
  unfold finite_values. induction ys as [|y ys IH]; [reflexivity|].
  cbn. now rewrite IH.
Qed.

Lemma mean_in_region_all_false (values : image) (m : mask) :
  all_false m -> mean_in_region values (Some m) = NaN.
Proof.
  intros Hf. unfold mean_in_region, region.
  now rewrite pixels_where_none.
Qed.

(** ** The two-level scenario *)

Lemma two_level_ravel :
  ravel two_level = map Fin (concat (repeat two_level_row 10)).
Proof. apply ravel_finite. Qed.

Lemma two_level_mean : arithmetic_mean (concat (repeat two_level_row 10)) = 5.
Proof.
  unfold arithmetic_mean, Rsum, two_level_row.
  cbn [repeat app concat fold_right List.length].
  rewrite INR_IZR_INZ. cbn [Z.of_nat Pos.of_succ_nat Pos.succ]. lra.
Qed.

Lemma two_level_std : population_std (concat (repeat two_level_row 10)) = 5.
Proof.
  unfold population_std, population_variance. rewrite two_level_mean.
  unfold Rsum, two_level_row.
  cbn [repeat app concat fold_right List.length map].
  rewrite INR_IZR_INZ. cbn [Z.of_nat Pos.of_succ_nat Pos.succ].
  match goal with |- sqrt ?v = _ => replace v with (5 * 5) by lra end.
  apply sqrt_square. lra.
Qed.

Lemma two_level_thresholds (lk uk : R) :
  compute_thresholds two_level (Fin lk) (Fin uk)
  = (Fin (5 + lk * 5), Fin (5 + uk * 5)).
Proof.
  rewrite (compute_thresholds_ravel _ _ lk uk two_level_ravel) by discriminate.
  now rewrite two_level_mean, two_level_std.
Qed.

Lemma two_level_greater (t : R) :
  0 <= t < 10 -> greater two_level (Fin t) = right_half.
Proof.
  intros Ht.
  assert (H0 : Rltb t 0 = false) by (apply Rltb_false; lra).
  assert (H10 : Rltb t 10 = true) by (apply Rltb_true; lra).
  unfold greater, two_level, finite_image, two_level_row, right_half.
  cbn [repeat app map fgtb]. rewrite H0, H10. reflexivity.
Qed.

Lemma all_false_forall (m : mask) :
  Forall (Forall (eq false)) m -> all_false m.
Proof.
  intros Hm i j. unfold mask_at.
  destruct (nth_in_or_default i m []) as [Hi|Hi].
  - rewrite Forall_forall in Hm. specialize (Hm _ Hi).
    rewrite Forall_forall in Hm.
    destruct (nth_in_or_default j (nth i m []) false) as [Hj|Hj].
    + symmetry. now apply Hm.
    + exact Hj.
  - rewrite Hi. now destruct j.
Qed.

Lemma two_level_whole_mean : mean_in_region two_level None = Fin 5.
Proof.
  unfold mean_in_region, region.
  rewrite <- ravel_pixels, two_level_ravel, finite_values_fin, two_level_mean.
  reflexivity.
Qed.

Lemma two_level_right_region (values : image) :
  values = two_level ->
  region values (Some right_half) = map Fin (repeat 10 50).
Proof.
  intros ->. unfold region.
  rewrite <- bool_index_pixels by reflexivity.
  reflexivity.
Qed.

Lemma two_level_right_mean : mean_in_region two_level (Some right_half) = Fin 10.
Proof.
  unfold mean_in_region.
  rewrite (two_level_right_region two_level eq_refl), finite_values_fin.
  rewrite arithmetic_mean_repeat by lia. reflexivity.
Qed.

Lemma right_half_cytoplasm :
  all_false (logical_and right_half (logical_not right_half)).
Proof.
  apply all_false_forall. vm_compute.
  repeat (constructor; [repeat constructor|]). constructor.
Qed.

(** Splits the natural number [n] into the cases 0, ..., k - 1 and
    k + n. *)
Ltac cases_below n k :=
  lazymatch k with
  | O => idtac
  | S ?k' => destruct n as [|n]; [|cases_below n k']
  end.

Lemma right_half_pixels (i j : nat) :
  mask_at right_half i j = true <-> pixel two_level i j = Fin 10.
Proof.
  assert (Hne : forall x : R, x <> 10 -> Fin x = Fin 10 -> False)
    by (intros x Hx [= E]; contradiction).
  assert (H0 : Fin 0 = Fin 10 -> False) by (apply Hne; lra).
  cases_below i 10%nat; cases_below j 10%nat;
    cbn; try (destruct i; cbn); try (destruct j; cbn);
    split; intros H; try reflexivity; try discriminate;
    exfalso; exact (H0 H).
Qed.

Section TwoLevel.

Variable gaussian_filter : image -> float -> image.

(** C7. On the 10 x 10 image with left half 0 and right half 10, used
    as both channels, with lower_k = 0.1, upper_k = 0.9 and neither
    smoothing nor dilation: the mean and the deviation are 5, the lower
    threshold is 5.5 and the upper one 9.5; the background mask is true
    exactly where the value is 10; the aggregate mask is the same mask;
    the cytoplasm mask has no true pixel; the secondary mean in the
    cytoplasm is NaN, the partition coefficient is NaN, and the
    aggregate mean is at least the background-removed mean. *)
Theorem two_level_scenario :
  let r := make_masks gaussian_filter two_level two_level_settings in
  np_mean (ravel two_level) = Fin 5
  /\ np_std 0 (ravel two_level) = Fin 5
  /\ lower r = Fin (11 / 2) /\ upper r = Fin (19 / 2)
  /\ (forall i j : nat,
        mask_at (bg r) i j = true <-> pixel two_level i j = Fin 10)
  /\ agg r = bg r
  /\ all_false (logical_and (bg r) (logical_not (agg r)))
  /\ measure_intensity two_level two_level r = Ok two_level_metrics
  /\ lookup "Red Cytoplasm (Intensity)" two_level_metrics = Some NaN
  /\ (forall a c : float,
        lookup "Red Aggregates (Intensity)" two_level_metrics = Some a ->
        lookup "Red Cytoplasm (Intensity)" two_level_metrics = Some c ->
        partition_coefficient a (Some c) = Ok NaN)
  /\ (forall a b : float,
        lookup "Aggregates (Intensity)" two_level_metrics = Some a ->
        lookup "Background Removed (Intensity)" two_level_metrics = Some b ->
        fgeb a b = true).
Proof.
  intros r.
  assert (Er : r = mkMasks right_half right_half (Fin (11 / 2)) (Fin (19 / 2))).
  { unfold r.
    rewrite (make_masks_eval gaussian_filter two_level two_level
               two_level_settings (Fin (11 / 2)) (Fin (19 / 2))).
    - cbn [dilate_size two_level_settings dilation_enabled Z.eqb negb andb].
      now rewrite !two_level_greater by lra.
    - now apply prep_no_blur.
    - cbn [lower_k upper_k two_level_settings].
      rewrite two_level_thresholds. f_equal; f_equal; lra. }
  clearbody r. subst r. cbn [bg agg lower upper].
  split; [rewrite two_level_ravel, np_mean_fin, two_level_mean by discriminate;
          reflexivity|].
  split; [rewrite two_level_ravel, np_std_fin, two_level_std by discriminate;
          reflexivity|].
  split; [reflexivity|]. split; [reflexivity|].
  split; [exact right_half_pixels|].
  split; [reflexivity|].
  split; [exact right_half_cytoplasm|].
  split.
  { pose proof (measure_intensity_eval two_level two_level
                  (mkMasks right_half right_half (Fin (11 / 2)) (Fin (19 / 2)))
                  eq_refl eq_refl eq_refl) as (E & _ & _).
    cbn [bg agg] in E. rewrite E.
    rewrite two_level_whole_mean, two_level_right_mean.
    rewrite (mean_in_region_all_false two_level _ right_half_cytoplasm).
    reflexivity. }
  split; [reflexivity|].
  split.
  - intros a c [= <-] [= <-]. reflexivity.
  - intros a b [= <-] [= <-]. cbn. apply Rleb_true. lra.
Qed.

End TwoLevel.

(** ** Toggling the dilation *)

Lemma make_masks_no_dilation (gf : image -> float -> image) (img : image)
      (s : Settings) (d : Z) :
  dilation_enabled d = false ->
  make_masks gf img (with_dilate_size s d)
  = make_masks gf img (with_dilate_size s 0).
Proof.
  intros Hd. unfold make_masks.
  change (_prep gf img (with_dilate_size s d)) with (_prep gf img s).
  change (_prep gf img (with_dilate_size s 0)) with (_prep gf img s).
  cbn [lower_k upper_k dilate_size with_dilate_size].
  destruct (compute_thresholds (_prep gf img s) (lower_k s) (upper_k s)) as [lo up].
  now rewrite Hd.
Qed.

Lemma dilation_single_pixel (m : mask) (i0 j0 i j : nat) :
  single_pixel m i0 j0 ->
  mask_at (binary_dilation m (square 3)) i j = true <->
  in_bounds m i j
  /\ (Z.abs (Z.of_nat i - Z.of_nat i0) <= 1)%Z
  /\ (Z.abs (Z.of_nat j - Z.of_nat j0) <= 1)%Z.
Proof.
  intros Hm.
  change 3%Z with (2 * 1 + 1)%Z.
  rewrite dilation_square_spec by lia. split.
  - intros (Hin & i' & j' & Hi & Hj & H).
    apply Hm in H as [-> ->]. split; [exact Hin|split; assumption].
  - intros (Hin & Hi & Hj). split; [exact Hin|].
    exists i0, j0. split; [exact Hi|split; [exact Hj|]]. now apply Hm.
Qed.

Lemma corner_spot_thresholds :
  compute_thresholds corner_spot (Fin 0) (Fin 0) = (Fin 1, Fin 1).
Proof.
  unfold corner_spot. rewrite compute_thresholds_finite by discriminate.
  assert (E : arithmetic_mean
                (concat [[16; 0; 0; 0]; [0; 0; 0; 0]; [0; 0; 0; 0]; [0; 0; 0; 0]])
              = 1).
  { unfold arithmetic_mean, Rsum. cbn [concat app fold_right List.length].
    rewrite INR_IZR_INZ. cbn [Z.of_nat Pos.of_succ_nat Pos.succ]. lra. }
  rewrite E. f_equal; f_equal; lra.
Qed.

Section Dilation.

Variable gaussian_filter : image -> float -> image.

(** C8. A [dilate_size] that is even or below 3 skips the dilation:
    [make_masks] returns what it returns with [dilate_size = 0], for
    4 in particular.  With [dilate_size = 3] both masks are the binary
    dilations, by the 3 x 3 square, of the thresholded masks; that
    dilation keeps the shape and turns a mask whose only true pixel is
    [(i0, j0)] into the mask true exactly at the pixels of the array
    within one row and one column of [(i0, j0)], a 3 x 3 block clipped
    at the borders (a 2 x 2 block for a spot in the corner). *)
Theorem dilation_toggling (img : image) (s : Settings) :
  (forall d : Z, Z.even d = true \/ (d < 3)%Z ->
     make_masks gaussian_filter img (with_dilate_size s d)
     = make_masks gaussian_filter img (with_dilate_size s 0))
  /\ make_masks gaussian_filter img (with_dilate_size s 4)
     = make_masks gaussian_filter img (with_dilate_size s 0)
  /\ (let pre := _prep gaussian_filter img s in
      let r := make_masks gaussian_filter img (with_dilate_size s 3) in
      bg r = binary_dilation (greater pre (lower r)) (square 3)
      /\ agg r = binary_dilation (greater pre (upper r)) (square 3))
  /\ (forall (m : mask) (i0 j0 : nat),
        single_pixel m i0 j0 ->
        shape (binary_dilation m (square 3)) = shape m
        /\ forall i j : nat,
             mask_at (binary_dilation m (square 3)) i j = true <->
             in_bounds m i j
             /\ (Z.abs (Z.of_nat i - Z.of_nat i0) <= 1)%Z
             /\ (Z.abs (Z.of_nat j - Z.of_nat j0) <= 1)%Z)
  /\ bg (make_masks gaussian_filter corner_spot
           (mkSettings (Fin 0) (Fin 0) (Fin 0) 3)) = corner_block.
Proof.
  split; [|split; [|split; [|split]]].
  - intros d Hd. apply make_masks_no_dilation.
    apply dilation_enabled_false. tauto.
  - now apply make_masks_no_dilation.
  - intros pre r. unfold r, make_masks.
    change (_prep gaussian_filter img (with_dilate_size s 3)) with pre.
    cbn [lower_k upper_k dilate_size with_dilate_size].
    destruct (compute_thresholds pre (lower_k s) (upper_k s)) as [lo up].
    change (dilation_enabled 3) with true. cbn [bg agg lower upper]. now split.
  - intros m i0 j0 Hm. split; [apply shape_binary_dilation|].
    intros i j. now apply dilation_single_pixel.
  - rewrite (make_masks_eval gaussian_filter corner_spot corner_spot _
               (Fin 1) (Fin 1)).
    + cbn [dilate_size]. change (dilation_enabled 3) with true. cbn [bg].
      assert (H0 : Rltb 1 0 = false) by rcmp.
      assert (H16 : Rltb 1 16 = true) by rcmp.
      unfold greater, corner_spot, finite_image.
      cbn [map fgtb]. rewrite H0, H16. vm_compute. reflexivity.
    + now apply prep_no_blur.
    + apply corner_spot_thresholds.
Qed.

End Dilation.

(** ** Thresholds as functions of the multiplier *)



Lemma np_std_nonneg (v : list float) (sigma : R) :
  np_std 0 v = Fin sigma -> 0 <= sigma.
Proof.
  unfold np_std, fsqrt.
  destruct (np_var 0 v) as [| | |x]; try discriminate.
  destruct (Rltb x 0); [discriminate|].
  intros [= <-]. apply sqrt_pos.
Qed.


Lemma thresholds_monotone_aux (img : image) (mu sigma k k' : R) :
  np_mean (ravel img) = Fin mu ->
  np_std 0 (ravel img) = Fin sigma ->
  0 <= sigma
  /\ compute_thresholds img (Fin k) (Fin k')
     = (Fin (mu + k * sigma), Fin (mu + k' * sigma)).
Proof.
  intros Hmu Hsigma. split; [now apply (np_std_nonneg (ravel img))|].
  unfold compute_thresholds. now rewrite Hmu, Hsigma.
Qed.


(** ** Inclusion of the aggregate mask in the background mask *)

Lemma fgtb_fgeb_trans (x up lo : float) :
  fgtb x up = true -> fgeb up lo = true -> fgtb x lo = true.
Proof.
  destruct x as [| | |a], up as [| | |b], lo as [| | |c]; cbn;
    try discriminate; try reflexivity.
  rewrite !Rltb_true, Rleb_true. lra.
Qed.

Lemma sub_mask_greater (img : image) (up lo : float) :
  fgeb up lo = true -> sub_mask (greater img up) (greater img lo).
Proof.
  intros Hge i j. rewrite !mask_at_greater.
  intros H. now apply fgtb_fgeb_trans with up.
Qed.

Lemma sub_mask_refl (m : mask) : sub_mask m m.
Proof. now intros i j. Qed.

Lemma in_bounds_shape (a b : mask) (i j : nat) :
  shape a = shape b -> in_bounds a i j -> in_bounds b i j.
Proof.
  unfold shape, in_bounds. intros Hs [Hi Hj].
  assert (Hl : List.length a = List.length b)
    by (rewrite <- (length_map (@List.length bool) a), Hs; apply length_map).
  assert (Hr : List.length (nth i a []) = List.length (nth i b [])).
  { rewrite <- (map_nth (@List.length bool) a [] i).
    rewrite <- (map_nth (@List.length bool) b [] i).
    now rewrite Hs. }
  split; lia.
Qed.

Lemma in_bounds_dec (m : mask) (i j : nat) :
  in_bounds m i j \/ ~ in_bounds m i j.
Proof. unfold in_bounds. lia. Qed.

(** Binary dilation is monotone for the inclusion of masks. *)
Lemma binary_dilation_monotone (a b selem : mask) :
  shape a = shape b -> sub_mask a b ->
  sub_mask (binary_dilation a selem) (binary_dilation b selem).
Proof.
  intros Hs Hab i j H.
  destruct (in_bounds_dec a i j) as [Hin|Hout];
    [|rewrite mask_at_dilation_out in H by assumption; discriminate].
  rewrite mask_at_dilation_in in H by assumption.
  rewrite mask_at_dilation_in by (now apply (in_bounds_shape a b)).
  apply footprint_meets_true in H as (p & q & Hp & Hq & Hse & H).
  apply footprint_meets_true. exists p, q.
  repeat (split; [assumption|]).
  apply get2_true in H as (i' & j' & Ei & Ej & H).
  apply get2_true. exists i', j'. auto.
Qed.

(** ** Statistics that are not finite *)

Lemma fold_fadd_nan (v : list float) : fold_left fadd v NaN = NaN.
Proof. induction v as [|a v IH]; [reflexivity|exact IH]. Qed.

Lemma fold_fadd_in_nan (v : list float) (acc : float) :
  In NaN v -> fold_left fadd v acc = NaN.
Proof.
  revert acc; induction v as [|a v IH]; intros acc; [contradiction|].
  intros [-> | Hin]; cbn [fold_left].
  - replace (fadd acc NaN) with NaN by (now destruct acc).
    apply fold_fadd_nan.
  - now apply IH.
Qed.

Lemma fold_fadd_inf_acc (neg : bool) (v : list float) (acc : float) :
  acc = signed_inf neg \/ acc = NaN ->
  fold_left fadd v acc = signed_inf neg \/ fold_left fadd v acc = NaN.
Proof.
  revert acc; induction v as [|a v IH]; intros acc Hacc; [exact Hacc|].
  cbn [fold_left]. apply IH.
  destruct Hacc as [-> | ->]; destruct neg, a; cbn; auto.
Qed.

Lemma fold_fadd_in_inf (neg : bool) (v : list float) (acc : float) :
  In (signed_inf neg) v ->
  fold_left fadd v acc = signed_inf neg \/ fold_left fadd v acc = NaN.
Proof.
  revert acc; induction v as [|a v IH]; intros acc; [contradiction|].
  intros [-> | Hin]; cbn [fold_left].
  - apply fold_fadd_inf_acc. destruct neg, acc; cbn; auto.
  - now apply IH.
Qed.

Lemma finite_or_not (v : list float) :
  (exists ys : list R, v = map Fin ys)
  \/ (exists a : float, In a v /\ isfinite a = false).
Proof.
  induction v as [|a v [[ys ->] | (b & Hb & Hf)]].
  - left. now exists [].
  - destruct a as [| | |x].
    + right. exists NaN. split; [now left|reflexivity].
    + right. exists PInf. split; [now left|reflexivity].
    + right. exists NInf. split; [now left|reflexivity].
    + left. now exists (x :: ys).
  - right. exists b. split; [now right|exact Hf].
Qed.

Lemma deviation_not_finite (v : list float) (a : float) :
  In a v -> isfinite a = false ->
  fsub a (fdiv (np_sum v) (Fin (INR (List.length v)))) = NaN.
Proof.
  intros Hin Hf.
  assert (HN : Rltb (INR (List.length v)) 0 = false)
    by (apply Rltb_false, pos_INR).
  unfold np_sum.
  destruct a as [| | |x]; try discriminate.
  - reflexivity.
  - destruct (fold_fadd_in_inf false v (Fin 0) Hin) as [-> | ->]; cbn.
    + now rewrite HN.
    + reflexivity.
  - destruct (fold_fadd_in_inf true v (Fin 0) Hin) as [-> | ->]; cbn.
    + now rewrite HN.
    + reflexivity.
Qed.

(** The mean and the deviation are both finite, or the deviation is NaN. *)
Lemma statistics_finite_or_nan (v : list float) :
  (exists mu sigma : R, np_mean v = Fin mu /\ np_std 0 v = Fin sigma)
  \/ np_std 0 v = NaN.
Proof.
  destruct (finite_or_not v) as [[ys ->] | (a & Hin & Hf)].
  - destruct ys as [|y ys].
    + right. unfold np_std, np_var. cbn. now rewrite Reqb_refl.
    + left. exists (arithmetic_mean (y :: ys)), (population_std (y :: ys)).
      split; [now apply np_mean_fin|now apply np_std_fin].
  - right. unfold np_std, np_var.
    replace (np_sum _) with NaN; [reflexivity|].
    symmetry. apply fold_fadd_in_nan.
    rewrite map_map. apply in_map_iff. exists a. split; [|exact Hin].
    now rewrite (deviation_not_finite v a Hin Hf).
Qed.

Section Inclusion.

Variable gaussian_filter : image -> float -> image.

Lemma make_masks_sub_mask (img : image) (s : Settings) :
  fgeb (upper (make_masks gaussian_filter img s))
       (lower (make_masks gaussian_filter img s)) = true ->
  sub_mask (agg (make_masks gaussian_filter img s))
           (bg (make_masks gaussian_filter img s)).
Proof.
  unfold make_masks.
  destruct (compute_thresholds _ _ _) as [lo up].
  destruct (dilation_enabled (dilate_size s)); cbn [bg agg lower upper]; intros Hge.
  - apply binary_dilation_monotone.
    + now rewrite !shape_greater.
    + now apply sub_mask_greater.
  - now apply sub_mask_greater.
Qed.

Lemma make_masks_nan_std (img : image) (s : Settings) :
  np_std 0 (ravel (_prep gaussian_filter img s)) = NaN ->
  agg (make_masks gaussian_filter img s) = bg (make_masks gaussian_filter img s).
Proof.
  intros Hnan. unfold make_masks, compute_thresholds. rewrite Hnan.
  replace (fmul (lower_k s) NaN) with NaN by (now destruct (lower_k s)).
  replace (fmul (upper_k s) NaN) with NaN by (now destruct (upper_k s)).
  replace (fadd (np_mean (ravel (_prep gaussian_filter img s))) NaN) with NaN
    by (now destruct (np_mean _)).
  now destruct (dilation_enabled (dilate_size s)).
Qed.

(** C10. Whenever the upper threshold computed by [make_masks] is at
    least the lower one, every true pixel of the returned aggregate mask
    is true in the returned background mask, with or without the
    dilation step, which applies one footprint to both masks and is
    monotone for inclusion.  With real multipliers [lower_k <= upper_k]
    the thresholds are so ordered as soon as the mean and the deviation
    of the image are finite, the deviation being non-negative, and the
    inclusion holds for every image. *)
Theorem aggregate_within_background (img : image) (s : Settings) :
  let pre := _prep gaussian_filter img s in
  let r := make_masks gaussian_filter img s in
  (fgeb (upper r) (lower r) = true -> sub_mask (agg r) (bg r))
  /\ (forall lk uk : R,
        lower_k s = Fin lk -> upper_k s = Fin uk -> lk <= uk ->
        (forall mu sigma : R,
           np_mean (ravel pre) = Fin mu -> np_std 0 (ravel pre) = Fin sigma ->
           0 <= sigma /\ fgeb (upper r) (lower r) = true)
        /\ sub_mask (agg r) (bg r))
  /\ (forall a b selem : mask,
        shape a = shape b -> sub_mask a b ->
        sub_mask (binary_dilation a selem) (binary_dilation b selem)).
Proof.
  intros pre r.
  split; [apply make_masks_sub_mask|].
  split; [|exact binary_dilation_monotone].
  intros lk uk Hlk Huk Hk.
  assert (Hfin : forall mu sigma : R,
            np_mean (ravel pre) = Fin mu -> np_std 0 (ravel pre) = Fin sigma ->
            0 <= sigma /\ fgeb (upper r) (lower r) = true).
  { intros mu sigma Hmu Hsigma.
    pose proof (thresholds_monotone_aux pre mu sigma lk uk Hmu Hsigma) as [Hs E].
    split; [exact Hs|].
    assert (Er : (lower r, upper r) = (Fin (mu + lk * sigma), Fin (mu + uk * sigma))).
    { rewrite <- E, <- Hlk, <- Huk. unfold r, make_masks. fold pre.
      destruct (compute_thresholds pre (lower_k s) (upper_k s)) as [lo up].
      now destruct (dilation_enabled (dilate_size s)). }
    injection Er as -> ->. cbn. apply Rleb_true. nra. }
  split; [exact Hfin|].
  destruct (statistics_finite_or_nan (ravel pre)) as [(mu & sigma & Hmu & Hsigma) | Hnan].
  - apply make_masks_sub_mask. now apply (Hfin mu sigma).
  - unfold r. rewrite (make_masks_nan_std img s Hnan). apply sub_mask_refl.
Qed.

End Inclusion.

(* ================================================================== *)
(** * Constant images on binary64 numbers *)

Module Binary64Facts.

Import PrimFloat FloatOps FloatAxioms SpecFloat Binary64.
Local Open Scope float_scope.














(** ** Sums of zeros *)











(** ** The deviation of a constant array whose mean is exact *)




(** ** Masks with no true pixel *)










End Binary64Facts.

Section ConstantImage.

Import PrimFloat.
Local Open Scope float_scope.

Variable gaussian_filter : Binary64.image -> float -> Binary64.image.


End ConstantImage.

(* ================================================================== *)
(** * Instances *)

(** ** A dilated mask holds a pixel equal to its threshold *)

Lemma mean_first_row_thresholds :
  compute_thresholds mean_first_row (Fin 0) (Fin 0) = (Fin 3, Fin 3).
Proof.
  unfold mean_first_row. rewrite compute_thresholds_finite by discriminate.
  assert (E : arithmetic_mean (concat [[3; 6; 0]]) = 3).
  { unfold arithmetic_mean, Rsum. cbn [concat app fold_right List.length].
    rewrite INR_IZR_INZ. cbn [Z.of_nat Pos.of_succ_nat Pos.succ]. lra. }
  rewrite E. f_equal; f_equal; lra.
Qed.

Lemma mean_first_row_masks :
  make_masks no_filter mean_first_row dilate3_settings
  = mkMasks [[true; true; true]] [[true; true; true]] (Fin 3) (Fin 3).
Proof.
  rewrite (make_masks_eval no_filter mean_first_row mean_first_row _
             (Fin 3) (Fin 3)).
  - cbn [dilate_size dilate3_settings].
    change (dilation_enabled 3) with true. cbv iota.
    assert (H3 : Rltb 3 3 = false) by rcmp.
    assert (H6 : Rltb 3 6 = true) by rcmp.
    assert (H0 : Rltb 3 0 = false) by rcmp.
    unfold greater, mean_first_row, finite_image.
    cbn [map fgtb]. rewrite H3, H6, H0. vm_compute. reflexivity.
  - now apply prep_no_blur.
  - apply mean_first_row_thresholds.
Qed.

(** With a dilation of side 3, the first pixel of the row 3, 6, 0 equals
    the lower threshold 3 and is true in the returned background mask,
    which is not the mask of the pixels above that threshold. *)
Lemma make_masks_dilated_keeps_threshold_pixel :
  pixel (_prep no_filter mean_first_row dilate3_settings) 0 0
  = lower (make_masks no_filter mean_first_row dilate3_settings)
  /\ mask_at (bg (make_masks no_filter mean_first_row dilate3_settings)) 0 0 = true
  /\ bg (make_masks no_filter mean_first_row dilate3_settings)
     <> greater (_prep no_filter mean_first_row dilate3_settings)
                (lower (make_masks no_filter mean_first_row dilate3_settings)).
Proof.
  rewrite mean_first_row_masks. cbn [bg lower].
  rewrite (prep_no_blur no_filter mean_first_row dilate3_settings eq_refl).
  split; [reflexivity|]. split; [reflexivity|].
  intros E.
  assert (H : mask_at [[true; true; true]] 0 0
              = mask_at (greater mean_first_row (Fin 3)) 0 0) by now rewrite <- E.
  rewrite mask_at_greater in H.
  change (pixel mean_first_row 0 0) with (Fin 3) in H.
  rewrite fgtb_irrefl in H. discriminate.
Qed.

(** ** The theorems at concrete inputs *)

Lemma nonzero_mean_spec_witness :
  _nonzero_mean sample_image (Some sample_mask) = Ok (Fin (arithmetic_mean [1])).
Proof.
  assert (Hs : forall mk, Some sample_mask = Some mk -> shape mk = shape sample_image)
    by (intros mk [= <-]; reflexivity).
  destruct (nonzero_mean_spec sample_image (Some sample_mask) Hs) as (_ & H & _).
  apply H. discriminate.
Defined.

Lemma make_masks_spec_witness :
  shape (bg (make_masks no_filter sample_image default_settings))
  = shape sample_image.
Proof.
  assert (Hf : forall (img : image) (sigma : float),
             shape (no_filter img sigma) = shape img) by reflexivity.
  destruct (make_masks_spec no_filter Hf sample_image default_settings)
    as (_ & H & _).
  exact H.
Defined.

Lemma measure_intensity_spec_witness :
  shape (logical_and right_half (logical_not right_half)) = shape two_level.
Proof.
  destruct (measure_intensity_spec two_level two_level
              (mkMasks right_half right_half (Fin 0) (Fin 0))
              eq_refl eq_refl eq_refl) as (_ & H & _).
  exact H.
Defined.

Section ConstantImageInstances.

Import PrimFloat.
Local Open Scope float_scope.



End ConstantImageInstances.


(* ================================================================== *)
(** * Further properties of the pipeline *)

(** ** The smoothing guard *)

Lemma prep_skipped (gf : image -> float -> image) (img : image) (s : Settings) :
  fgtb (blur_sigma s) (Fin 0) = false -> _prep gf img s = img.
Proof. intros H. unfold _prep. now rewrite H, andb_false_r. Qed.

Lemma prep_applied (gf : image -> float -> image) (img : image) (s : Settings) :
  fgtb (blur_sigma s) (Fin 0) = true ->
  _prep gf img s = gf img (blur_sigma s).
Proof.
  intros H. unfold _prep. rewrite H, andb_true_r.
  replace (float_truthy (blur_sigma s)) with true; [reflexivity|].
  unfold float_truthy. destruct (blur_sigma s) as [| | |x]; try discriminate.
  - reflexivity.
  - cbn in H. apply Rltb_true in H. cbn.
    replace (Reqb x 0) with false; [reflexivity|].
    symmetry. apply Reqb_false. lra.
Qed.

Lemma fgtb_zero (a : float) :
  fgtb a (Fin 0) = true <-> a = PInf \/ exists x : R, a = Fin x /\ 0 < x.
Proof.
  destruct a as [| | |x]; cbn.
  - split; [discriminate|]. intros [H|(x & H & _)]; discriminate.
  - split; [now left|reflexivity].
  - split; [discriminate|]. intros [H|(x & H & _)]; discriminate.
  - rewrite Rltb_true. split.
    + intros H. right. now exists x.
    + intros [H|(y & [= ->] & H)]; [discriminate|exact H].
Qed.

Lemma make_masks_prep (gf gf' : image -> float -> image) (img : image)
      (s s' : Settings) :
  _prep gf img s = _prep gf' img s' ->
  lower_k s = lower_k s' -> upper_k s = upper_k s' ->
  dilate_size s = dilate_size s' ->
  make_masks gf img s = make_masks gf' img s'.
Proof.
  intros Hp Hl Hu Hd. unfold make_masks. now rewrite Hp, Hl, Hu, Hd.
Qed.

(** X1. Smoothing is applied exactly when [blur_sigma] is greater
    than zero.  For a sigma that is zero, negative, minus infinity or
    NaN the image is left as it is, without an error, and the masks and
    thresholds are those obtained with [blur_sigma = 0], whatever the
    filter is. *)
Theorem blur_only_when_positive
    (gf gf' : image -> float -> image) (img : image) (s : Settings) :
  ((blur_sigma s = PInf \/ exists x : R, blur_sigma s = Fin x /\ 0 < x) ->
     _prep gf img s = gf img (blur_sigma s))
  /\ ((blur_sigma s = NaN \/ blur_sigma s = NInf
       \/ exists x : R, blur_sigma s = Fin x /\ x <= 0) ->
        _prep gf img s = img
        /\ make_masks gf img s = make_masks gf' img (with_blur_sigma s (Fin 0))).
Proof.
  split.
  - intros H. apply prep_applied. now apply fgtb_zero.
  - intros H.
    assert (Hg : fgtb (blur_sigma s) (Fin 0) = false).
    { destruct H as [-> | [-> | (x & -> & Hx)]]; try reflexivity.
      cbn. apply Rltb_false. lra. }
    split; [now apply prep_skipped|].
    apply make_masks_prep; try reflexivity.
    rewrite (prep_skipped gf img s Hg).
    symmetry. now apply prep_no_blur.
Qed.

(** ** Images whose statistics are not finite *)

Lemma np_std_non_finite (v : list float) :
  has_non_finite v -> np_std 0 v = NaN.
Proof.
  intros (a & Hin & Hf). unfold np_std, np_var.
  replace (np_sum _) with NaN; [reflexivity|].
  symmetry. apply fold_fadd_in_nan.
  rewrite map_map. apply in_map_iff. exists a. split; [|exact Hin].
  now rewrite (deviation_not_finite v a Hin Hf).
Qed.

Lemma np_std_nil : np_std 0 [] = NaN.
Proof. unfold np_std, np_var. cbn. now rewrite Reqb_refl. Qed.

Lemma compute_thresholds_nan (img : image) (lk uk : float) :
  np_std 0 (ravel img) = NaN -> compute_thresholds img lk uk = (NaN, NaN).
Proof.
  intros H. unfold compute_thresholds. rewrite H.
  replace (fmul lk NaN) with NaN by (now destruct lk).
  replace (fmul uk NaN) with NaN by (now destruct uk).
  now destruct (np_mean (ravel img)).
Qed.

Lemma greater_nan (img : image) : all_false (greater img NaN).
Proof.
  intros i j. rewrite mask_at_greater. now destruct (pixel img i j).
Qed.

Lemma dilation_all_false (m selem : mask) :
  all_false m -> all_false (binary_dilation m selem).
Proof.
  intros Hm i j.
  destruct (in_bounds_dec m i j) as [Hin|Hout];
    [|now apply mask_at_dilation_out].
  rewrite mask_at_dilation_in by assumption.
  apply not_true_is_false. intros H.
  apply footprint_meets_true in H as (p & q & _ & _ & _ & H).
  apply get2_true in H as (i' & j' & _ & _ & H).
  now rewrite Hm in H.
Qed.

Lemma all_false_and_not (a b : mask) :
  shape a = shape b -> all_false a -> all_false (logical_and a (logical_not b)).
Proof.
  intros Hs Ha i j. now rewrite mask_at_and_not, Ha.
Qed.

Section NonFinite.

Variable gaussian_filter : image -> float -> image.

(** X2. Without smoothing, one NaN or infinite pixel anywhere in the
    image (or an image with no pixel) makes both thresholds NaN and
    both masks empty, whatever the multipliers and the dilation size;
    the four region means are then NaN, and so is the partition
    coefficient, while the whole-image mean still averages the finite
    pixels. *)
Theorem non_finite_pixel_empties_masks
    (img red_img : image) (s : Settings) :
  fgtb (blur_sigma s) (Fin 0) = false ->
  ravel img = [] \/ has_non_finite (ravel img) ->
  shape red_img = shape img ->
  let r := make_masks gaussian_filter img s in
  lower r = NaN /\ upper r = NaN
  /\ all_false (bg r) /\ all_false (agg r)
  /\ measure_intensity img red_img r =
       Ok [ ("Unedited (Intensity)"%string, mean_in_region img None);
            ("Background Removed (Intensity)"%string, NaN);
            ("Aggregates (Intensity)"%string, NaN);
            ("Red Aggregates (Intensity)"%string, NaN);
            ("Red Cytoplasm (Intensity)"%string, NaN) ]
  /\ partition_coefficient NaN (Some NaN) = Ok NaN.
Proof.
  intros Hblur Himg Hred r.
  assert (Hstd : np_std 0 (ravel img) = NaN).
  { destruct Himg as [-> | H]; [apply np_std_nil|now apply np_std_non_finite]. }
  set (m := if dilation_enabled (dilate_size s)
            then binary_dilation (greater img NaN) (square (dilate_size s))
            else greater img NaN).
  assert (Er : r = mkMasks m m NaN NaN).
  { unfold r, m.
    rewrite (make_masks_eval gaussian_filter img img s NaN NaN).
    - now destruct (dilation_enabled (dilate_size s)).
    - now apply prep_skipped.
    - now apply compute_thresholds_nan. }
  assert (Hm : all_false m).
  { unfold m. destruct (dilation_enabled (dilate_size s)).
    - apply dilation_all_false, greater_nan.
    - apply greater_nan. }
  assert (Hs : shape m = shape img).
  { unfold m. destruct (dilation_enabled (dilate_size s)).
    - now rewrite shape_binary_dilation, shape_greater.
    - apply shape_greater. }
  clearbody r. subst r. cbn [bg agg lower upper].
  repeat (split; [solve [reflexivity | assumption]|]).
  split; [|reflexivity].
  pose proof (measure_intensity_eval img red_img (mkMasks m m NaN NaN)
                Hs Hs Hred) as (E & _ & _).
  cbn [bg agg] in E. rewrite E.
  rewrite (mean_in_region_all_false img m Hm).
  rewrite (mean_in_region_all_false red_img m Hm).
  rewrite (mean_in_region_all_false red_img _ (all_false_and_not m m eq_refl Hm)).
  reflexivity.
Qed.

End NonFinite.

(** ** Multipliers in the reverse order *)

Lemma make_masks_shapes (gf : image -> float -> image) (img : image) (s : Settings) :
  shape (bg (make_masks gf img s)) = shape (_prep gf img s)
  /\ shape (agg (make_masks gf img s)) = shape (_prep gf img s).
Proof.
  unfold make_masks.
  destruct (compute_thresholds _ _ _) as [lo up].
  destruct (dilation_enabled (dilate_size s)); cbn [bg agg];
    now rewrite ?shape_binary_dilation, !shape_greater.
Qed.

Lemma make_masks_sub_mask_rev (gf : image -> float -> image) (img : image)
      (s : Settings) :
  fgeb (lower (make_masks gf img s)) (upper (make_masks gf img s)) = true ->
  sub_mask (bg (make_masks gf img s)) (agg (make_masks gf img s)).
Proof.
  unfold make_masks.
  destruct (compute_thresholds _ _ _) as [lo up].
  destruct (dilation_enabled (dilate_size s)); cbn [bg agg lower upper]; intros Hge.
  - apply binary_dilation_monotone.
    + now rewrite !shape_greater.
    + now apply sub_mask_greater.
  - now apply sub_mask_greater.
Qed.

Lemma make_masks_thresholds (gf : image -> float -> image) (img : image)
      (s : Settings) :
  (lower (make_masks gf img s), upper (make_masks gf img s))
  = compute_thresholds (_prep gf img s) (lower_k s) (upper_k s).
Proof.
  unfold make_masks.
  destruct (compute_thresholds _ _ _) as [lo up].
  now destruct (dilation_enabled (dilate_size s)).
Qed.

Lemma background_within_aggregate (gf : image -> float -> image) (img : image)
      (s : Settings) (lk uk : R) :
  lower_k s = Fin lk -> upper_k s = Fin uk -> uk <= lk ->
  sub_mask (bg (make_masks gf img s)) (agg (make_masks gf img s)).
Proof.
  intros Hlk Huk Hk.
  destruct (statistics_finite_or_nan (ravel (_prep gf img s)))
    as [(mu & sigma & Hmu & Hsigma) | Hnan].
  - apply make_masks_sub_mask_rev.
    pose proof (make_masks_thresholds gf img s) as E.
    rewrite Hlk, Huk in E.
    destruct (thresholds_monotone_aux _ mu sigma lk uk Hmu Hsigma) as [Hs E'].
    rewrite E' in E. injection E as -> ->.
    cbn. apply Rleb_true. nra.
  - rewrite (make_masks_nan_std gf img s Hnan). apply sub_mask_refl.
Qed.

Lemma cytoplasm_all_false (a b : mask) :
  shape a = shape b -> sub_mask a b ->
  all_false (logical_and a (logical_not b)).
Proof.
  intros Hs Hab i j. rewrite mask_at_and_not by assumption.
  destruct (mask_at a i j) eqn:E; [|reflexivity].
  now rewrite (Hab i j E).
Qed.

Section ReverseOrder.

Variable gaussian_filter : image -> float -> image.

Hypothesis gaussian_filter_shape :
  forall (img : image) (sigma : float),
    shape (gaussian_filter img sigma) = shape img.

(** X3. When [upper_k <= lower_k], as with the defaults 0.25 and 0.20,
    the background mask lies inside the aggregate mask for every image,
    so the cytoplasm mask (background and not aggregate) has no true
    pixel: the secondary mean in the cytoplasm is NaN and the partition
    coefficient computed from the metrics is NaN. *)
Theorem cytoplasm_empty_when_upper_k_not_above
    (img red_img : image) (s : Settings) (lk uk : R) :
  lower_k s = Fin lk -> upper_k s = Fin uk -> uk <= lk ->
  shape red_img = shape img ->
  let r := make_masks gaussian_filter img s in
  sub_mask (bg r) (agg r)
  /\ all_false (logical_and (bg r) (logical_not (agg r)))
  /\ exists (m : list (string * float)) (ra : float),
       measure_intensity img red_img r = Ok m
       /\ lookup "Red Cytoplasm (Intensity)" m = Some NaN
       /\ lookup "Red Aggregates (Intensity)" m = Some ra
       /\ partition_coefficient ra (Some NaN) = Ok NaN.
Proof.
  intros Hlk Huk Hk Hred r.
  pose proof (background_within_aggregate gaussian_filter img s lk uk Hlk Huk Hk)
    as Hsub. fold r in Hsub.
  destruct (make_masks_shapes gaussian_filter img s) as [Hb Ha].
  fold r in Hb, Ha.
  assert (Hp : shape (_prep gaussian_filter img s) = shape img).
  { unfold _prep.
    destruct (float_truthy (blur_sigma s) && fgtb (blur_sigma s) (Fin 0));
      [apply gaussian_filter_shape|reflexivity]. }
  rewrite Hp in Hb, Ha.
  assert (Hc : all_false (logical_and (bg r) (logical_not (agg r))))
    by (apply cytoplasm_all_false; [congruence|exact Hsub]).
  split; [exact Hsub|]. split; [exact Hc|].
  pose proof (measure_intensity_eval img red_img r Hb Ha Hred) as (E & _ & _).
  rewrite (mean_in_region_all_false red_img _ Hc) in E.
  eexists. eexists. split; [exact E|].
  split; [reflexivity|]. split; reflexivity.
Qed.

End ReverseOrder.

(** ** The dilation step *)

Lemma make_masks_unfold (gf : image -> float -> image) (img : image) (s : Settings) :
  let pre := _prep gf img s in
  let t := compute_thresholds pre (lower_k s) (upper_k s) in
  make_masks gf img s
  = mkMasks (maybe_dilate (dilate_size s) (greater pre (fst t)))
            (maybe_dilate (dilate_size s) (greater pre (snd t)))
            (fst t) (snd t).
Proof.
  intros pre t. unfold make_masks, maybe_dilate. fold pre. unfold t.
  destruct (compute_thresholds pre (lower_k s) (upper_k s)) as [lo up].
  now destruct (dilation_enabled (dilate_size s)).
Qed.

Lemma maybe_dilate_monotone (d : Z) (a b : mask) :
  shape a = shape b -> sub_mask a b ->
  sub_mask (maybe_dilate d a) (maybe_dilate d b).
Proof.
  intros Hs Hab. unfold maybe_dilate.
  destruct (dilation_enabled d); [now apply binary_dilation_monotone|exact Hab].
Qed.

Lemma in_bounds_true (m : mask) (i j : nat) :
  mask_at m i j = true -> in_bounds m i j.
Proof.
  intros H. destruct (in_bounds_dec m i j) as [Hin|Hout]; [exact Hin|].
  rewrite mask_at_out in H by assumption. discriminate.
Qed.

Lemma dilation_extensive (m : mask) (r : Z) :
  (0 <= r)%Z -> sub_mask m (binary_dilation m (square (2 * r + 1))).
Proof.
  intros Hr i j H. apply dilation_square_spec; [exact Hr|].
  split; [now apply in_bounds_true|].
  exists i, j. repeat split; try lia. exact H.
Qed.

Lemma in_bounds_greater (img : image) (t : float) (i j : nat) :
  in_bounds (greater img t) i j <->
  (i < List.length img)%nat /\ (j < List.length (nth i img []))%nat.
Proof.
  unfold in_bounds, greater. rewrite length_map.
  change (@nil bool) with (map (fun x => fgtb x t) []).
  now rewrite map_nth, length_map.
Qed.

Section DilatedMasks.

Variable gaussian_filter : image -> float -> image.

(** X4. With an odd [dilate_size = 2 r + 1 >= 3], a pixel of a
    returned mask is true exactly when it lies in the image and some
    pixel at most [r] rows and [r] columns away exceeds the threshold;
    in particular every pixel above a threshold stays in its mask (the
    dilation only adds pixels). *)
Theorem dilated_masks_reach
    (img : image) (s : Settings) (r : Z) :
  (1 <= r)%Z -> dilate_size s = (2 * r + 1)%Z ->
  let pre := _prep gaussian_filter img s in
  let res := make_masks gaussian_filter img s in
  let near (t : float) (i j : nat) :=
    ((i < List.length pre)%nat /\ (j < List.length (nth i pre []))%nat)
    /\ exists i' j' : nat,
         (Z.abs (Z.of_nat i - Z.of_nat i') <= r)%Z
         /\ (Z.abs (Z.of_nat j - Z.of_nat j') <= r)%Z
         /\ fgtb (pixel pre i' j') t = true in
  (forall i j : nat, mask_at (bg res) i j = true <-> near (lower res) i j)
  /\ (forall i j : nat, mask_at (agg res) i j = true <-> near (upper res) i j)
  /\ sub_mask (greater pre (lower res)) (bg res)
  /\ sub_mask (greater pre (upper res)) (agg res).
Proof.
  intros Hr Hd pre res near.
  assert (He : dilation_enabled (2 * r + 1) = true).
  { apply dilation_enabled_true. split; [lia|].
    rewrite Z.add_comm, Z.odd_add_mul_2. reflexivity. }
  assert (Eres : res = mkMasks
            (binary_dilation (greater pre (lower res)) (square (2 * r + 1)))
            (binary_dilation (greater pre (upper res)) (square (2 * r + 1)))
            (lower res) (upper res)).
  { unfold res at 1. rewrite make_masks_unfold. fold pre.
    unfold maybe_dilate. rewrite Hd, He.
    pose proof (make_masks_thresholds gaussian_filter img s) as E.
    fold res pre in E. rewrite <- E. reflexivity. }
  assert (Hnear : forall t i j,
            mask_at (binary_dilation (greater pre t) (square (2 * r + 1))) i j = true
            <-> near t i j).
  { intros t i j. rewrite dilation_square_spec by lia.
    unfold near. rewrite in_bounds_greater.
    split; intros (Hin & i' & j' & Hi & Hj & H); (split; [exact Hin|]);
      exists i', j'; (split; [exact Hi|]); (split; [exact Hj|]).
    - now rewrite mask_at_greater in H.
    - now rewrite mask_at_greater. }
  rewrite Eres. cbn [bg agg lower upper].
  split; [intros i j; apply Hnear|].
  split; [intros i j; apply Hnear|].
  split; apply dilation_extensive; lia.
Qed.

End DilatedMasks.

(** ** Masks as functions of the multipliers *)

Lemma fst_thresholds (img : image) (lk uk : float) :
  fst (compute_thresholds img lk uk)
  = fadd (np_mean (ravel img)) (fmul lk (np_std 0 (ravel img))).
Proof. reflexivity. Qed.

Lemma snd_thresholds (img : image) (lk uk : float) :
  snd (compute_thresholds img lk uk)
  = fadd (np_mean (ravel img)) (fmul uk (np_std 0 (ravel img))).
Proof. reflexivity. Qed.

Lemma threshold_order (v : list float) (k1 k2 : R) :
  k1 <= k2 ->
  let t (k : R) := fadd (np_mean v) (fmul (Fin k) (np_std 0 v)) in
  fgeb (t k2) (t k1) = true \/ (t k1 = NaN /\ t k2 = NaN).
Proof.
  intros Hk t.
  destruct (statistics_finite_or_nan v) as [(mu & sigma & Hmu & Hsigma) | Hnan].
  - left. unfold t. rewrite Hmu, Hsigma. cbn. apply Rleb_true.
    pose proof (np_std_nonneg v sigma Hsigma). nra.
  - right. unfold t. rewrite Hnan. cbn. now destruct (np_mean v).
Qed.

Lemma sub_mask_thresholds (d : Z) (img : image) (lo hi : float) :
  fgeb hi lo = true \/ (lo = NaN /\ hi = NaN) ->
  sub_mask (maybe_dilate d (greater img hi)) (maybe_dilate d (greater img lo)).
Proof.
  intros [H | [-> ->]]; [|apply sub_mask_refl].
  apply maybe_dilate_monotone; [now rewrite !shape_greater|].
  now apply sub_mask_greater.
Qed.

Section Multipliers.

Variable gaussian_filter : image -> float -> image.

(** X5. Raising a multiplier can only shrink its mask: for real
    [k1 <= k2] and every image and settings, the background mask
    obtained with [lower_k = k2] lies inside the one obtained with
    [lower_k = k1], and likewise for the aggregate mask and [upper_k];
    each mask and threshold ignores the other multiplier. *)
Theorem masks_shrink_as_multiplier_grows
    (img : image) (s : Settings) (k1 k2 : R) (k : float) :
  k1 <= k2 ->
  let at_lower x := make_masks gaussian_filter img (with_lower_k s x) in
  let at_upper x := make_masks gaussian_filter img (with_upper_k s x) in
  sub_mask (bg (at_lower (Fin k2))) (bg (at_lower (Fin k1)))
  /\ sub_mask (agg (at_upper (Fin k2))) (agg (at_upper (Fin k1)))
  /\ agg (at_lower k) = agg (make_masks gaussian_filter img s)
  /\ upper (at_lower k) = upper (make_masks gaussian_filter img s)
  /\ bg (at_upper k) = bg (make_masks gaussian_filter img s)
  /\ lower (at_upper k) = lower (make_masks gaussian_filter img s).
Proof.
  intros Hk at_lower at_upper. unfold at_lower, at_upper.
  rewrite !make_masks_unfold. cbn [bg agg lower upper].
  change (_prep gaussian_filter img (with_lower_k s (Fin k1)))
    with (_prep gaussian_filter img s).
  change (_prep gaussian_filter img (with_lower_k s (Fin k2)))
    with (_prep gaussian_filter img s).
  change (_prep gaussian_filter img (with_upper_k s (Fin k1)))
    with (_prep gaussian_filter img s).
  change (_prep gaussian_filter img (with_upper_k s (Fin k2)))
    with (_prep gaussian_filter img s).
  change (_prep gaussian_filter img (with_lower_k s k))
    with (_prep gaussian_filter img s).
  change (_prep gaussian_filter img (with_upper_k s k))
    with (_prep gaussian_filter img s).
  cbn [lower_k upper_k dilate_size with_lower_k with_upper_k].
  rewrite !fst_thresholds, !snd_thresholds.
  split; [apply sub_mask_thresholds, threshold_order, Hk|].
  split; [apply sub_mask_thresholds, threshold_order, Hk|].
  repeat split.
Qed.

End Multipliers.

(** ** Bounds on the region means *)

Lemma in_finite_values (x : R) (v : list float) :
  In x (finite_values v) <-> In (Fin x) v.
Proof.
  unfold finite_values. rewrite in_flat_map. split.
  - intros [a [Ha Hx]]. destruct a; cbn in Hx; try tauto.
    destruct Hx as [->|[]]; exact Ha.
  - intros Hx. exists (Fin x); split; [exact Hx|now left].
Qed.

Lemma take_where_map {A : Type} (p : A -> bool) (xs : list A) :
  take_where xs (map p xs) = filter p xs.
Proof.
  unfold take_where. induction xs as [|x xs IH]; [reflexivity|].
  cbn. destruct (p x); cbn; now rewrite IH.
Qed.


Lemma Rsum_lower_bound (c : R) (xs : list R) :
  (forall x : R, In x xs -> c <= x) -> INR (List.length xs) * c <= Rsum xs.
Proof.
  unfold Rsum. induction xs as [|x xs IH]; intros H.
  - cbn. lra.
  - cbn [fold_right List.length]. rewrite S_INR.
    assert (c <= x) by (apply H; now left).
    assert (INR (List.length xs) * c <= fold_right Rplus 0 xs)
      by (apply IH; intros y Hy; apply H; now right).
    lra.
Qed.



Lemma INR_length_pos {A : Type} (l : list A) : l <> [] -> 0 < INR (List.length l).
Proof.
  intros H. apply lt_0_INR. destruct l; [congruence|cbn; lia].
Qed.




Lemma nonzero_mean_ok_shape (values : image) (m : mask) (a : float) :
  _nonzero_mean values (Some m) = Ok a -> shape m = shape values.
Proof.
  unfold _nonzero_mean, bool_index, shape_eqb.
  destruct (list_eq_dec Nat.eq_dec (shape values) (shape m)) as [E|E];
    [now intros _|discriminate].
Qed.


(** ** Aggregates against the background *)








Section AggregatesAgainstBackground.

Variable gaussian_filter : image -> float -> image.


End AggregatesAgainstBackground.

(** ** The sign of the partition coefficient *)

Lemma in_take_where {A : Type} (x : A) (xs : list A) (bs : list bool) :
  In x (take_where xs bs) -> In x xs.
Proof.
  unfold take_where. rewrite in_map_iff.
  intros ((y & b) & <- & H). apply filter_In in H as [H _].
  now apply in_combine_l in H.
Qed.

Lemma in_region_ravel (values : image) (m : mask) (a : float) :
  shape m = shape values -> In a (region values (Some m)) -> In a (ravel values).
Proof.
  intros Hs. unfold region. rewrite <- bool_index_pixels by assumption.
  apply in_take_where.
Qed.

Lemma arithmetic_mean_at_least (lo : R) (xs : list R) :
  xs <> [] -> (forall x : R, In x xs -> lo <= x) -> lo <= arithmetic_mean xs.
Proof.
  intros Hne H. unfold arithmetic_mean.
  pose proof (INR_length_pos xs Hne) as Hn.
  pose proof (Rsum_lower_bound lo xs H) as Hl.
  apply Rmult_le_reg_r with (INR (List.length xs)); [exact Hn|].
  unfold Rdiv. rewrite Rmult_assoc, Rinv_l by lra. lra.
Qed.

Lemma mean_in_region_nonneg (values : image) (m : mask) :
  shape m = shape values ->
  (forall x : R, In (Fin x) (ravel values) -> 0 <= x) ->
  nan_or_nonneg (mean_in_region values (Some m)).
Proof.
  intros Hs H. unfold mean_in_region.
  destruct (finite_values (region values (Some m))) as [|y ys] eqn:E;
    [now left|].
  right. eexists. split; [reflexivity|]. rewrite <- E.
  apply arithmetic_mean_at_least.
  - rewrite E. discriminate.
  - intros x Hx. apply H, (in_region_ravel values m); [exact Hs|].
    now apply in_finite_values.
Qed.

Lemma partition_coefficient_nonneg (a b : float) :
  nan_or_nonneg a -> nan_or_nonneg b ->
  exists pc : float,
    partition_coefficient a (Some b) = Ok pc /\ nan_or_nonneg pc.
Proof.
  intros Ha [-> | (y & -> & Hy)].
  - exists NaN. split; [reflexivity|now left].
  - destruct (Req_dec_T y 0) as [-> | Hy0].
    + exists NaN. split; [|now left]. cbn. now rewrite Reqb_refl.
    + unfold partition_coefficient, py_truediv. cbn.
      replace (Reqb y 0) with false by (symmetry; now apply Reqb_false).
      destruct Ha as [-> | (x & -> & Hx)].
      * exists NaN. split; [reflexivity|now left].
      * exists (Fin (x / y)). split; [now rewrite fdiv_finite|].
        right. eexists. split; [reflexivity|].
        apply Rmult_le_pos; [exact Hx|]. left. apply Rinv_0_lt_compat. lra.
Qed.

Lemma measure_intensity_shapes (main_img red_img : image) (masks : Masks)
      (m : list (string * float)) :
  measure_intensity main_img red_img masks = Ok m ->
  shape (bg masks) = shape main_img
  /\ shape (agg masks) = shape main_img
  /\ shape red_img = shape main_img.
Proof.
  unfold measure_intensity.
  destruct (_nonzero_mean main_img None) as [u|] eqn:E0; [|discriminate].
  cbn [bind].
  destruct (_nonzero_mean main_img (Some (bg masks))) as [b|] eqn:E1;
    [|discriminate].
  cbn [bind].
  destruct (_nonzero_mean main_img (Some (agg masks))) as [a|] eqn:E2;
    [|discriminate].
  cbn [bind].
  destruct (_nonzero_mean red_img (Some (agg masks))) as [ra|] eqn:E3;
    [|discriminate].
  intros _.
  apply nonzero_mean_ok_shape in E1, E2, E3.
  repeat split; congruence.
Qed.

(** X8. When every finite pixel of the secondary image is
    non-negative, a successful measurement gives a partition
    coefficient that is NaN or a non-negative number, whatever the
    primary image and the masks are; computing it never raises. *)
Theorem partition_coefficient_sign
    (main_img red_img : image) (masks : Masks) (m : list (string * float))
    (ra rc : float) :
  (forall x : R, In (Fin x) (ravel red_img) -> 0 <= x) ->
  measure_intensity main_img red_img masks = Ok m ->
  lookup "Red Aggregates (Intensity)" m = Some ra ->
  lookup "Red Cytoplasm (Intensity)" m = Some rc ->
  exists pc : float,
    partition_coefficient ra (Some rc) = Ok pc /\ nan_or_nonneg pc.
Proof.
  intros Hpos Hm Hra Hrc.
  destruct (measure_intensity_shapes _ _ _ _ Hm) as (Hb & Ha & Hr).
  destruct (measure_intensity_eval main_img red_img masks Hb Ha Hr)
    as (E & Hc & _).
  rewrite E in Hm. injection Hm as <-.
  cbn in Hra, Hrc. injection Hra as <-. injection Hrc as <-.
  apply partition_coefficient_nonneg;
    apply mean_in_region_nonneg; try assumption; congruence.
Qed.

(** ** The whole-image sentinel *)

Lemma filter_all {A : Type} (xs : list A) : filter (fun _ => true) xs = xs.
Proof. induction xs as [|x xs IH]; [reflexivity|cbn; now rewrite IH]. Qed.

Lemma shape_all_true_like (values : image) :
  shape (all_true_like values) = shape values.
Proof.
  unfold shape, all_true_like. rewrite map_map. apply map_ext.
  intros row. apply length_map.
Qed.

(** X9. The whole-image sentinel [None] gives the mean an all-true
    mask of the image's shape gives. *)
Theorem nonzero_mean_sentinel_is_full_mask (values : image) :
  _nonzero_mean values None
  = _nonzero_mean values (Some (all_true_like values)).
Proof.
  rewrite nonzero_mean_whole.
  rewrite nonzero_mean_ok by apply shape_all_true_like.
  f_equal. unfold mean_in_region.
  replace (region values (Some (all_true_like values))) with (region values None);
    [reflexivity|].
  unfold region at 2.
  rewrite <- bool_index_pixels by apply shape_all_true_like.
  unfold region. rewrite <- ravel_pixels.
  unfold ravel, all_true_like. rewrite <- concat_map.
  now rewrite take_where_map, filter_all.
Qed.

(** ** Gain and offset *)








Section GainOffset.

Variable gaussian_filter : image -> float -> image.


End GainOffset.

(* ================================================================== *)
(** * Properties of the command line *)

(** ** Channel selection *)

Lemma channel_in_range (arr : Array3) (c : Z) :
  (- Z.of_nat (nchan arr) <= c < Z.of_nat (nchan arr))%Z ->
  channel arr c
  = Ok (map (map (fun px =>
          nth (Z.to_nat (if (c <? 0)%Z then c + Z.of_nat (nchan arr) else c)%Z)
              px NaN)) (pixels arr)).
Proof.
  intros Hc. unfold channel.
  replace (c <? - Z.of_nat (nchan arr))%Z with false
    by (symmetry; apply Z.ltb_ge; lia).
  replace (Z.of_nat (nchan arr) <=? c)%Z with false
    by (symmetry; apply Z.leb_gt; lia).
  reflexivity.
Qed.

Lemma channel_below_range (arr : Array3) (c : Z) :
  (c < - Z.of_nat (nchan arr))%Z -> channel arr c = Raise IndexError.
Proof.
  intros Hc. unfold channel.
  replace (c <? - Z.of_nat (nchan arr))%Z with true
    by (symmetry; apply Z.ltb_lt; lia).
  reflexivity.
Qed.

Lemma channel_negative (arr : Array3) (c : Z) :
  (- Z.of_nat (nchan arr) <= c < 0)%Z ->
  channel arr c = channel arr (c + Z.of_nat (nchan arr)).
Proof.
  intros Hc. rewrite !channel_in_range by lia.
  replace (c <? 0)%Z with true by (symmetry; apply Z.ltb_lt; lia).
  replace (c + Z.of_nat (nchan arr) <? 0)%Z with false
    by (symmetry; apply Z.ltb_ge; lia).
  reflexivity.
Qed.

Lemma channel_shape (arr : Array3) (c c' : Z) (a b : image) :
  channel arr c = Ok a -> channel arr c' = Ok b -> shape a = shape b.
Proof.
  unfold channel.
  destruct ((c <? - Z.of_nat (nchan arr)) || (Z.of_nat (nchan arr) <=? c))%Z;
    [discriminate|].
  destruct ((c' <? - Z.of_nat (nchan arr)) || (Z.of_nat (nchan arr) <=? c'))%Z;
    [discriminate|].
  intros [= <-] [= <-]. unfold shape. rewrite !map_map.
  apply map_ext. intros row. now rewrite !length_map.
Qed.

Lemma measure_intensity_keys (main_img red_img : image) (masks : Masks)
      (m : list (string * float)) :
  measure_intensity main_img red_img masks = Ok m ->
  exists u b a ra rc : float,
    m = [ ("Unedited (Intensity)"%string, u);
          ("Background Removed (Intensity)"%string, b);
          ("Aggregates (Intensity)"%string, a);
          ("Red Aggregates (Intensity)"%string, ra);
          ("Red Cytoplasm (Intensity)"%string, rc) ].
Proof.
  unfold measure_intensity.
  destruct (_nonzero_mean main_img None) as [u|]; [|discriminate]. cbn [bind].
  destruct (_nonzero_mean main_img (Some (bg masks))) as [b|]; [|discriminate].
  cbn [bind].
  destruct (_nonzero_mean main_img (Some (agg masks))) as [a|]; [|discriminate].
  cbn [bind].
  destruct (_nonzero_mean red_img (Some (agg masks))) as [ra|]; [|discriminate].
  cbn [bind].
  destruct (_nonzero_mean red_img _) as [rc|]; [|discriminate].
  cbn [bind]. intros [= <-]. now exists u, b, a, ra, rc.
Qed.

Lemma partition_coefficient_returns (a b : float) :
  exists pc : float, partition_coefficient a (Some b) = Ok pc.
Proof.
  unfold partition_coefficient, py_truediv.
  destruct (negb (isfinite b) || feqb b (Fin 0)) eqn:G; [now eexists|].
  apply orb_false_elim in G as [_ G]. rewrite G. now eexists.
Qed.

Section QuantifyFile.

Variable gaussian_filter : image -> float -> image.

(** What [quantify_file] returns once the file has passed the check
    and both channel selections have succeeded. *)
Lemma quantify_file_selected (args : Args) (s : Settings) (p : File)
      (main_img red_img : image) :
  channels_checked args p = true ->
  channel (loaded p) (main_channel args) = Ok main_img ->
  channel (loaded p) (red_channel args) = Ok red_img ->
  quantify_file gaussian_filter args s p
  = (metrics <~ lift (measure_intensity main_img red_img
                        (make_masks gaussian_filter main_img s)) ;;
     red_agg <~ getitem metrics "Red Aggregates (Intensity)" ;;
     red_cyto <~ getitem metrics "Red Cytoplasm (Intensity)" ;;
     pc <~ lift (partition_coefficient red_agg (Some red_cyto)) ;;
     Done (Some
       (dict_set
          (dict_update [("Filename"%string, Text (name p))]
             (map (fun kv => (fst kv, Number (snd kv))) metrics))
          "PC" (Number pc),
        if save_stages args then map (stage_png (stem p)) STAGES else []))).
Proof.
  intros Hc Hm Hr. unfold quantify_file, channels_checked in *.
  apply andb_true_iff in Hc as [H1 H2]. apply Z.ltb_lt in H1, H2.
  replace (Z.of_nat (nchan (loaded p)) <=? main_channel args)%Z with false
    by (symmetry; apply Z.leb_gt; lia).
  replace (Z.of_nat (nchan (loaded p)) <=? red_channel args)%Z with false
    by (symmetry; apply Z.leb_gt; lia).
  cbn [orb]. rewrite Hm, Hr. reflexivity.
Qed.

Lemma quantify_file_skipped (args : Args) (s : Settings) (p : File) :
  channels_checked args p = false ->
  quantify_file gaussian_filter args s p = Done None.
Proof.
  intros Hc. unfold quantify_file, channels_checked in *.
  apply andb_false_iff in Hc as [H|H]; apply Z.ltb_ge in H.
  - replace (Z.of_nat (nchan (loaded p)) <=? main_channel args)%Z with true
      by (symmetry; apply Z.leb_le; lia).
    reflexivity.
  - replace (Z.of_nat (nchan (loaded p)) <=? red_channel args)%Z with true
      by (symmetry; apply Z.leb_le; lia).
    now rewrite orb_true_r.
Qed.

(** X11. The channel check of [cmd_quantify] bounds the indices from
    above only.  A file is skipped, without a row and without an
    error, when an index is at least the channel count; a negative
    index passes the check and selects the channel counted from the
    end, giving the row of the index [c + C]; an index below [-C]
    passes the check too and raises IndexError. *)
Theorem channel_check_bounds_from_above_only
    (args : Args) (s : Settings) (p : File) :
  let C := Z.of_nat (nchan (loaded p)) in
  ((C <= main_channel args \/ C <= red_channel args)%Z ->
     quantify_file gaussian_filter args s p = Done None)
  /\ ((- C <= main_channel args < 0)%Z -> (red_channel args < C)%Z ->
        quantify_file gaussian_filter args s p
        = quantify_file gaussian_filter
            (with_main_channel args (main_channel args + C)) s p)
  /\ ((- C <= red_channel args < 0)%Z -> (main_channel args < C)%Z ->
        quantify_file gaussian_filter args s p
        = quantify_file gaussian_filter
            (with_red_channel args (red_channel args + C)) s p)
  /\ ((main_channel args < - C)%Z -> (red_channel args < C)%Z ->
        quantify_file gaussian_filter args s p
        = Failed (PipelineError IndexError))
  /\ ((- C <= main_channel args < C)%Z -> (red_channel args < - C)%Z ->
        quantify_file gaussian_filter args s p
        = Failed (PipelineError IndexError)).
Proof.
  intros C.
  assert (Hchk : forall a, (main_channel a < Z.of_nat (nchan (loaded p)))%Z ->
                           (red_channel a < Z.of_nat (nchan (loaded p)))%Z ->
            quantify_file gaussian_filter a s p
            = (main_img <~ lift (channel (loaded p) (main_channel a)) ;;
               red_img <~ lift (channel (loaded p) (red_channel a)) ;;
               metrics <~ lift (measure_intensity main_img red_img
                                  (make_masks gaussian_filter main_img s)) ;;
               red_agg <~ getitem metrics "Red Aggregates (Intensity)" ;;
               red_cyto <~ getitem metrics "Red Cytoplasm (Intensity)" ;;
               pc <~ lift (partition_coefficient red_agg (Some red_cyto)) ;;
               Done (Some
                 (dict_set
                    (dict_update [("Filename"%string, Text (name p))]
                       (map (fun kv => (fst kv, Number (snd kv))) metrics))
                    "PC" (Number pc),
                  if save_stages a then map (stage_png (stem p)) STAGES else [])))).
  { intros a H1 H2. unfold quantify_file.
    replace (Z.of_nat (nchan (loaded p)) <=? main_channel a)%Z with false
      by (symmetry; apply Z.leb_gt; lia).
    replace (Z.of_nat (nchan (loaded p)) <=? red_channel a)%Z with false
      by (symmetry; apply Z.leb_gt; lia).
    reflexivity. }
  split; [|split; [|split; [|split]]].
  - intros H. apply quantify_file_skipped. unfold channels_checked.
    apply andb_false_iff. destruct H as [H|H]; [left|right]; apply Z.ltb_ge; exact H.
  - intros Hm Hr. rewrite !Hchk; cbn [main_channel red_channel with_main_channel];
      try lia.
    now rewrite (channel_negative (loaded p) (main_channel args)).
  - intros Hr Hm. rewrite !Hchk; cbn [main_channel red_channel with_red_channel];
      try lia.
    now rewrite (channel_negative (loaded p) (red_channel args)).
  - intros Hm Hr. rewrite Hchk by (fold C; lia).
    now rewrite channel_below_range.
  - intros Hm Hr. rewrite Hchk by (fold C; lia).
    rewrite channel_in_range by assumption. cbn [lift and_then].
    now rewrite channel_below_range.
Qed.

End QuantifyFile.

(** ** The table of [cmd_quantify] *)

Section QuantifyTable.

Variable gaussian_filter : image -> float -> image.

Hypothesis gaussian_filter_shape :
  forall (img : image) (sigma : float),
    shape (gaussian_filter img sigma) = shape img.

Lemma prep_shape (img : image) (s : Settings) :
  shape (_prep gaussian_filter img s) = shape img.
Proof.
  unfold _prep.
  destruct (float_truthy (blur_sigma s) && fgtb (blur_sigma s) (Fin 0));
    [apply gaussian_filter_shape|reflexivity].
Qed.

Lemma quantify_file_row (args : Args) (s : Settings) (p : File) :
  (0 <= main_channel args)%Z -> (0 <= red_channel args)%Z ->
  channels_checked args p = true ->
  exists (u b a ra rc pc : float),
    partition_coefficient ra (Some rc) = Ok pc
    /\ quantify_file gaussian_filter args s p
       = Done (Some
           ([ ("Filename"%string, Text (name p));
              ("Unedited (Intensity)"%string, Number u);
              ("Background Removed (Intensity)"%string, Number b);
              ("Aggregates (Intensity)"%string, Number a);
              ("Red Aggregates (Intensity)"%string, Number ra);
              ("Red Cytoplasm (Intensity)"%string, Number rc);
              ("PC"%string, Number pc) ],
            if save_stages args then stage_pngs (stem p) else [])).
Proof.
  intros Hm0 Hr0 Hc.
  pose proof Hc as Hc'. unfold channels_checked in Hc'.
  apply andb_true_iff in Hc' as [H1 H2]. apply Z.ltb_lt in H1, H2.
  destruct (channel (loaded p) (main_channel args)) as [main_img|] eqn:Em;
    [|rewrite channel_in_range in Em by lia; discriminate].
  destruct (channel (loaded p) (red_channel args)) as [red_img|] eqn:Er;
    [|rewrite channel_in_range in Er by lia; discriminate].
  rewrite (quantify_file_selected gaussian_filter args s p _ _ Hc Em Er).
  destruct (make_masks_shapes gaussian_filter main_img s) as [Hb Ha].
  rewrite prep_shape in Hb, Ha.
  pose proof (channel_shape _ _ _ _ _ Er Em) as Hs.
  destruct (measure_intensity_eval main_img red_img
              (make_masks gaussian_filter main_img s) Hb Ha Hs) as (E & _ & _).
  rewrite E. cbn [lift and_then].
  set (u := mean_in_region main_img None).
  set (b := mean_in_region main_img (Some _)).
  set (a := mean_in_region main_img (Some _)).
  set (ra := mean_in_region red_img (Some _)).
  set (rc := mean_in_region red_img (Some _)).
  clearbody u b a ra rc.
  destruct (partition_coefficient_returns ra rc) as [pc Hpc].
  exists u, b, a, ra, rc, pc. split; [exact Hpc|].
  match goal with
  | |- and_then (getitem ?m ?k) _ = _ =>
      replace (getitem m k) with (Done ra) by reflexivity
  end.
  cbn [and_then].
  match goal with
  | |- and_then (getitem ?m ?k) _ = _ =>
      replace (getitem m k) with (Done rc) by reflexivity
  end.
  cbn [and_then]. rewrite Hpc. reflexivity.
Qed.

Lemma quantify_loop_rows (args : Args) (s : Settings) (files : list File)
      (rows : list (dict cell)) (pngs : list string) :
  (0 <= main_channel args)%Z -> (0 <= red_channel args)%Z ->
  exists (rows' : list (dict cell)) (pngs' : list string),
    quantify_loop gaussian_filter args s files rows pngs
    = Done (rows ++ rows', pngs ++ pngs')
    /\ Forall2 (fun row p =>
                  keys row = COLUMNS
                  /\ dict_get row "Filename" = Some (Text (name p)))
               rows' (filter (channels_checked args) files)
    /\ pngs' = if save_stages args
               then flat_map (fun p => stage_pngs (stem p))
                             (filter (channels_checked args) files)
               else [].
Proof.
  intros Hm0 Hr0. revert rows pngs.
  induction files as [|p files IH]; intros rows pngs.
  - exists [], []. cbn. rewrite !app_nil_r.
    split; [reflexivity|]. split; [constructor|now destruct (save_stages args)].
  - cbn [quantify_loop filter].
    destruct (channels_checked args p) eqn:Hc.
    + destruct (quantify_file_row args s p Hm0 Hr0 Hc)
        as (u & b & a & ra & rc & pc & _ & E).
      rewrite E. cbn [and_then].
      set (row := [ ("Filename"%string, Text (name p));
              ("Unedited (Intensity)"%string, Number u);
              ("Background Removed (Intensity)"%string, Number b);
              ("Aggregates (Intensity)"%string, Number a);
              ("Red Aggregates (Intensity)"%string, Number ra);
              ("Red Cytoplasm (Intensity)"%string, Number rc);
              ("PC"%string, Number pc) ]).
      set (written := if save_stages args then stage_pngs (stem p) else []).
      destruct (IH (rows ++ [row]) (pngs ++ written))
        as (rows' & pngs' & E' & HF & Hp).
      exists (row :: rows'), (written ++ pngs').
      split; [rewrite <- !app_assoc in E'; exact E'|].
      split; [constructor; [split; reflexivity|exact HF]|].
      rewrite Hp. unfold written. now destruct (save_stages args).
    + rewrite quantify_file_skipped by assumption. cbn [and_then].
      apply IH.
Qed.

(** X12. With channel indices that are not negative, [cmd_quantify]
    fails with exit status 1 on an empty list of files and otherwise
    completes: the table has one row, in the order of the files, for
    each file with more channels than both indices, and no row for the
    others; every row has the seven columns Filename, the five
    intensities and PC, in this order, with the file's name under
    Filename; with [--save-stages] the five stage images of each such
    file are written, and none otherwise. *)
Theorem cmd_quantify_table (args : Args) (files : list File) :
  (0 <= main_channel args)%Z -> (0 <= red_channel args)%Z ->
  (files = [] ->
     cmd_quantify gaussian_filter args files = Failed (SystemExit 1))
  /\ (files <> [] ->
      exists (rows : list (dict cell)) (pngs : list string),
        cmd_quantify gaussian_filter args files = Done (rows, pngs)
        /\ Forall2 (fun row p =>
                      keys row = COLUMNS
                      /\ dict_get row "Filename" = Some (Text (name p)))
                   rows (filter (channels_checked args) files)
        /\ pngs = if save_stages args
                  then flat_map (fun p => stage_pngs (stem p))
                                (filter (channels_checked args) files)
                  else []).
Proof.
  intros Hm0 Hr0. split.
  - intros ->. reflexivity.
  - intros Hne. destruct files as [|p files]; [congruence|].
    unfold cmd_quantify.
    destruct (quantify_loop_rows args
                (mkSettings (arg_lower_k args) (arg_upper_k args)
                            (arg_blur args) (arg_dilate args))
                (p :: files) [] [] Hm0 Hr0) as (rows & pngs & E & HF & Hp).
    exists rows, pngs. split; [exact E|]. split; assumption.
Qed.

End QuantifyTable.

(** ** Splitting a PNG stem at its last underscore *)

Lemma rsplit_last_none (c : ascii) (s : string) :
  contains_char c s = false -> rsplit_last c s = None.
Proof.
  induction s as [|a s IH]; [reflexivity|].
  cbn. intros H. apply orb_false_elim in H as [Ha Hs].
  now rewrite (IH Hs), Ha.
Qed.

Lemma rsplit_last_some (c : ascii) (s : string) :
  contains_char c s = true ->
  exists l r : string, rsplit_last c s = Some (l, r).
Proof.
  induction s as [|a s IH]; [discriminate|].
  cbn. intros H.
  destruct (rsplit_last c s) as [[l r]|] eqn:E; [now eexists; eexists|].
  destruct (Ascii.eqb a c) eqn:Ea; [now eexists; eexists|].
  cbn in H. destruct (IH H) as (l & r & E'). discriminate.
Qed.

Lemma rsplit_last_append (c : ascii) (l r : string) :
  contains_char c r = false ->
  rsplit_last c (l ++ String c r) = Some (l, r).
Proof.
  intros Hr. induction l as [|a l IH]; cbn.
  - now rewrite (rsplit_last_none c r Hr), Ascii.eqb_refl.
  - now rewrite IH.
Qed.

Lemma rsplit_last_sound (c : ascii) (s l r : string) :
  rsplit_last c s = Some (l, r) ->
  s = (l ++ String c r)%string /\ contains_char c r = false.
Proof.
  revert l r. induction s as [|a s IH]; intros l r; [discriminate|].
  cbn. destruct (rsplit_last c s) as [[l' r']|] eqn:E.
  - intros [= <- <-]. destruct (IH l' r' eq_refl) as [-> H].
    split; [reflexivity|exact H].
  - destruct (Ascii.eqb a c) eqn:Ea; [|discriminate].
    intros [= <- <-]. apply Ascii.eqb_eq in Ea as ->.
    split; [reflexivity|].
    destruct (contains_char c s) eqn:Hc; [|reflexivity].
    destruct (rsplit_last_some c s Hc) as (l & r & E'). congruence.
Qed.

Lemma stage_png_split (stem label : string) :
  contains_char underscore label = false ->
  rsplit_last underscore (stage_png stem label) = Some (stem, label).
Proof. intros H. unfold stage_png. cbn. now apply rsplit_last_append. Qed.

Lemma stage_labels_plain :
  Forall (fun label => contains_char underscore label = false) STAGES.
Proof. repeat constructor. Qed.

(** ** Dictionaries *)

Lemma dict_get_set {V : Type} (d : dict V) (k k' : string) (v : V) :
  dict_get (dict_set d k v) k'
  = if String.eqb k k' then Some v else dict_get d k'.
Proof.
  induction d as [|[k0 w] d IH]; cbn.
  - reflexivity.
  - destruct (String.eqb k0 k) eqn:E0; cbn.
    + apply String.eqb_eq in E0 as ->. now destruct (String.eqb k k').
    + rewrite IH. destruct (String.eqb k0 k') eqn:E1; [|reflexivity].
      apply String.eqb_eq in E1 as ->.
      destruct (String.eqb k k') eqn:E2; [|reflexivity].
      apply String.eqb_eq in E2 as ->. now rewrite String.eqb_refl in E0.
Qed.

Lemma dict_get_setdefault {V : Type} (out : dict (list V)) (k k' : string) (p : V) :
  dict_get (setdefault_append out k p) k'
  = if String.eqb k k'
    then Some (match dict_get out k with
               | Some l => l ++ [p]
               | None => [p]
               end)
    else dict_get out k'.
Proof.
  induction out as [|[k0 l] out IH]; cbn.
  - reflexivity.
  - destruct (String.eqb k0 k) eqn:E0; cbn.
    + apply String.eqb_eq in E0 as ->. now destruct (String.eqb k k').
    + rewrite IH. destruct (String.eqb k0 k') eqn:E1; [|reflexivity].
      apply String.eqb_eq in E1 as ->.
      destruct (String.eqb k k') eqn:E2; [|reflexivity].
      apply String.eqb_eq in E2 as ->. now rewrite String.eqb_refl in E0.
Qed.

Lemma in_keys_setdefault {V : Type} (out : dict (list V)) (k k' : string) (p : V) :
  In k' (keys (setdefault_append out k p)) <-> In k' (keys out) \/ k' = k.
Proof.
  unfold keys. induction out as [|[k0 l] out IH]; cbn [setdefault_append].
  - cbn. intuition congruence.
  - destruct (String.eqb k0 k) eqn:E0; cbn [map fst In].
    + apply String.eqb_eq in E0 as ->. intuition congruence.
    + rewrite IH. tauto.
Qed.

Lemma NoDup_keys_setdefault {V : Type} (out : dict (list V)) (k : string) (p : V) :
  NoDup (keys out) -> NoDup (keys (setdefault_append out k p)).
Proof.
  unfold keys. induction out as [|[k0 l] out IH]; cbn [setdefault_append].
  - intros _. repeat constructor. intros [].
  - intros H. inversion H as [|? ? Hk0 Hout]; subst.
    destruct (String.eqb k0 k) eqn:E0; cbn [map fst].
    + now constructor.
    + constructor; [|now apply IH].
      intros Hin. apply (in_keys_setdefault out k k0 p) in Hin as [Hin| ->].
      * contradiction.
      * now rewrite String.eqb_refl in E0.
Qed.

(** ** Grouping the stage images *)

Lemma collect_step (out : dict (list string)) (p : string) :
  (out' <~ Done out ;;
   if negb (contains_char underscore p) then Done out'
   else
     match rsplit1 underscore p with
     | [stem; stage] => Done (setdefault_append out' stem p)
     | _ => Failed ValueError
     end)
  = Done (match group_key p with
          | Some k => setdefault_append out k p
          | None => out
          end).
Proof.
  cbn [and_then]. unfold group_key, rsplit1.
  destruct (contains_char underscore p) eqn:Hc; cbn [negb].
  - destruct (rsplit_last_some underscore p Hc) as (l & r & ->). reflexivity.
  - now rewrite (rsplit_last_none underscore p Hc).
Qed.

Lemma collect_fold (pngs : list string) (out : dict (list string)) :
  NoDup (keys out) ->
  exists out' : dict (list string),
    fold_left
      (fun acc p =>
         out <~ acc ;;
         if negb (contains_char underscore p) then Done out
         else
           match rsplit1 underscore p with
           | [stem; stage] => Done (setdefault_append out stem p)
           | _ => Failed ValueError
           end)
      pngs (Done out) = Done out'
    /\ NoDup (keys out')
    /\ forall k : string,
         dict_get out' k
         = match dict_get out k, group k pngs with
           | Some l, g => Some (l ++ g)
           | None, [] => None
           | None, g => Some g
           end.
Proof.
  revert out. induction pngs as [|p pngs IH]; intros out Hnd.
  - exists out. split; [reflexivity|]. split; [exact Hnd|].
    intros k. cbn. destruct (dict_get out k); [now rewrite app_nil_r|reflexivity].
  - cbn [fold_left]. rewrite collect_step.
    set (out1 := match group_key p with
                 | Some k => setdefault_append out k p
                 | None => out
                 end).
    assert (Hnd1 : NoDup (keys out1)).
    { unfold out1. destruct (group_key p); [now apply NoDup_keys_setdefault|exact Hnd]. }
    destruct (IH out1 Hnd1) as (out' & E & Hnd' & Hget).
    exists out'. split; [exact E|]. split; [exact Hnd'|].
    intros k. rewrite Hget. unfold group. cbn [filter]. fold (group k pngs).
    unfold out1, has_key.
    destruct (group_key p) as [kp|]; [|reflexivity].
    rewrite dict_get_setdefault.
    destruct (String.eqb kp k) eqn:Ek; [|reflexivity].
    apply String.eqb_eq in Ek as ->.
    destruct (dict_get out k) as [l|].
    + now rewrite <- app_assoc.
    + reflexivity.
Qed.

(** X13. [_collect_stage_pngs] never raises.  It ignores the PNG
    files whose stem has no underscore and groups the others under the
    part of the stem before its last underscore: each key occurs once
    and holds, in directory order, exactly the files with that
    prefix. *)
Theorem collect_stage_pngs_groups (pngs : list string) :
  exists out : dict (list string),
    _collect_stage_pngs pngs = Done out
    /\ NoDup (keys out)
    /\ (forall k : string,
          dict_get out k
          = match group k pngs with [] => None | g => Some g end)
    /\ (forall k p : string,
          In p (group k pngs) <->
          In p pngs /\ exists stage : string,
            p = (k ++ String underscore stage)%string
            /\ contains_char underscore stage = false).
Proof.
  destruct (collect_fold pngs [] (NoDup_nil _)) as (out & E & Hnd & Hget).
  exists out. split; [exact E|]. split; [exact Hnd|].
  split; [intros k; rewrite Hget; reflexivity|].
  intros k p. unfold group. rewrite filter_In. unfold has_key, group_key.
  split.
  - intros [Hin H]. split; [exact Hin|].
    destruct (rsplit_last underscore p) as [[l r]|] eqn:Er; [|discriminate].
    apply String.eqb_eq in H as ->.
    apply rsplit_last_sound in Er as [-> Hr]. now exists r.
  - intros (Hin & stage & -> & Hs). split; [exact Hin|].
    rewrite rsplit_last_append by assumption. apply String.eqb_refl.
Qed.

Lemma has_key_stage_png (k stem label : string) :
  contains_char underscore label = false ->
  has_key k (stage_png stem label) = String.eqb stem k.
Proof.
  intros H. unfold has_key, group_key. now rewrite stage_png_split.
Qed.

Lemma group_stage_pngs (k stem : string) :
  group k (stage_pngs stem) = if String.eqb stem k then stage_pngs stem else [].
Proof.
  unfold group, stage_pngs.
  assert (H : forall labels,
             Forall (fun label => contains_char underscore label = false) labels ->
             filter (has_key k) (map (stage_png stem) labels)
             = if String.eqb stem k then map (stage_png stem) labels else []).
  { induction 1 as [|label labels Hl _ IH].
    - now destruct (String.eqb stem k).
    - cbn [map filter]. rewrite has_key_stage_png, IH by assumption.
      now destruct (String.eqb stem k). }
  apply H, stage_labels_plain.
Qed.

Lemma group_written (k : string) (stems : list string) :
  NoDup stems ->
  group k (flat_map stage_pngs stems)
  = if in_dec string_dec k stems then stage_pngs k else [].
Proof.
  induction 1 as [|s stems Hs Hnd IH].
  - reflexivity.
  - cbn [flat_map]. unfold group in *. rewrite filter_app.
    fold (group k (stage_pngs s)). rewrite group_stage_pngs, IH.
    destruct (String.eqb s k) eqn:E.
    + apply String.eqb_eq in E as ->.
      destruct (in_dec string_dec k (k :: stems)) as [_|H]; [|exfalso; apply H; now left].
      destruct (in_dec string_dec k stems); [contradiction|].
      apply app_nil_r.
    + apply String.eqb_neq in E.
      destruct (in_dec string_dec k stems) as [Hin|Hin];
        destruct (in_dec string_dec k (s :: stems)) as [Hin'|Hin']; cbn;
        try reflexivity.
      * exfalso. apply Hin'. now right.
      * destruct Hin' as [->|Hin']; [congruence|contradiction].
Qed.

(** ** The stitched strip *)

Lemma last_of_stage_cons (st p : string) (files : list string) :
  last_of_stage st (p :: files)
  = match last_of_stage st files with
    | Some q => Some q
    | None => if has_stage st p then Some p else None
    end.
Proof.
  unfold last_of_stage. cbn [filter].
  destruct (has_stage st p); cbn [rev];
    destruct (rev (filter (has_stage st) files)); reflexivity.
Qed.

Lemma stage_mapping_fold (files : list string) (acc : dict string) :
  Forall (fun p => contains_char underscore p = true) files ->
  exists mapping : dict string,
    fold_left
      (fun acc p =>
         mapping <~ acc ;;
         match rsplit1 underscore p with
         | _ :: stage :: _ => Done (dict_set mapping stage p)
         | _ => Failed (PipelineError IndexError)
         end)
      files (Done acc) = Done mapping
    /\ forall st : string,
         dict_get mapping st
         = match last_of_stage st files with
           | Some p => Some p
           | None => dict_get acc st
           end.
Proof.
  intros H. revert acc. induction H as [|p files Hp _ IH]; intros acc.
  - exists acc. split; reflexivity.
  - cbn [fold_left and_then]. unfold rsplit1 at 2.
    destruct (rsplit_last_some underscore p Hp) as (l & r & Er). rewrite Er.
    destruct (IH (dict_set acc r p)) as (mapping & E & Hget).
    exists mapping. split; [exact E|].
    intros st. rewrite Hget, last_of_stage_cons.
    destruct (last_of_stage st files); [reflexivity|].
    rewrite dict_get_set. unfold has_stage, stage_of. rewrite Er.
    now destruct (String.eqb r st).
Qed.

Lemma paste_all_images (size_of : string -> nat * nat) (imgs : list string) (x : nat) :
  map fst (paste_all size_of imgs x) = imgs.
Proof.
  revert x. induction imgs as [|im imgs IH]; intros x; [reflexivity|].
  cbn. now rewrite IH.
Qed.

Lemma paste_all_offsets (size_of : string -> nat * nat) (imgs : list string)
      (x k : nat) :
  (k < List.length imgs)%nat ->
  nth k (map snd (paste_all size_of imgs x)) 0%nat
  = (x + list_sum (map (width_of size_of) (firstn k imgs)))%nat.
Proof.
  revert x k. induction imgs as [|im imgs IH]; intros x k Hk; [cbn in Hk; lia|].
  destruct k as [|k]; cbn [paste_all map snd nth firstn].
  - cbn. lia.
  - rewrite IH by (cbn in Hk; lia).
    unfold list_sum, width_of. cbn [fold_right]. lia.
Qed.

Lemma list_max_in (l : list nat) : l <> [] -> In (list_max l) l.
Proof.
  induction l as [|a l IH]; [congruence|]. intros _.
  destruct l as [|b l].
  - left. cbn. lia.
  - change (list_max (a :: b :: l)) with (Nat.max a (list_max (b :: l))).
    destruct (Nat.max_spec a (list_max (b :: l))) as [[_ ->]|[_ ->]].
    + right. apply IH. discriminate.
    + now left.
Qed.

Section StitchLayout.

Variable size_of : string -> nat * nat.

(** X15. For a group whose file stems all have an underscore (as
    every group of [_collect_stage_pngs] has), [cmd_stitch] does not
    raise.  It pastes, in the fixed order of the stages and whatever
    the order of the files, the last file of each stage that has one,
    and nothing when no stage has a file; the images are placed side
    by side from x = 0, each starting where the previous one ends, on
    a canvas as wide as the sum of their widths and as high as the
    highest of them. *)
Theorem stitch_group_layout (files : list string) :
  Forall (fun p => contains_char underscore p = true) files ->
  let imgs :=
    flat_map (fun st => match last_of_stage st files with
                        | Some p => [p]
                        | None => []
                        end) STAGES in
  (imgs = [] -> stitch_group size_of files = Done None)
  /\ (imgs <> [] ->
      exists strip : Strip,
        stitch_group size_of files = Done (Some strip)
        /\ map fst (pasted strip) = imgs
        /\ canvas_width strip = list_sum (map (width_of size_of) imgs)
        /\ (forall k : nat, (k < List.length imgs)%nat ->
              nth k (map snd (pasted strip)) 0%nat
              = list_sum (map (width_of size_of) (firstn k imgs)))
        /\ Forall (fun p => (height_of size_of p <= canvas_height strip)%nat) imgs
        /\ (exists p : string,
              In p imgs /\ height_of size_of p = canvas_height strip)).
Proof.
  intros Hfiles imgs.
  destruct (stage_mapping_fold files [] Hfiles) as (mapping & E & Hget).
  assert (Himgs : flat_map (fun st => match dict_get mapping st with
                                      | Some p => [p]
                                      | None => []
                                      end) STAGES = imgs).
  { unfold imgs. apply flat_map_ext. intros st. rewrite Hget.
    now destruct (last_of_stage st files). }
  assert (Es : stitch_group size_of files
               = match imgs with
                 | [] => Done None
                 | _ :: _ =>
                     Done (Some (mkStrip
                       (list_sum (map (fun im => fst (size_of im)) imgs))
                       (list_max (map (fun im => snd (size_of im)) imgs))
                       (paste_all size_of imgs 0)))
                 end).
  { assert (E0 : stage_mapping files = Done mapping) by exact E.
    unfold stitch_group. rewrite E0. cbn [and_then].
    now rewrite Himgs. }
  clearbody imgs. split.
  - intros ->. exact Es.
  - intros Hne. destruct imgs as [|im imgs]; [congruence|].
    eexists. split; [exact Es|]. cbn [pasted canvas_width canvas_height].
    split; [apply paste_all_images|].
    split; [reflexivity|].
    split; [intros k Hk; now rewrite paste_all_offsets|].
    split.
    + apply Forall_forall. intros p Hp.
      assert (Hle : (list_max (map (fun im0 => snd (size_of im0)) (im :: imgs))
                     <= list_max (map (fun im0 => snd (size_of im0)) (im :: imgs)))%nat)
        by lia.
      apply list_max_le in Hle. rewrite Forall_forall in Hle.
      apply Hle. apply in_map_iff. now exists p.
    + assert (Hin : In (list_max (map (fun im0 => snd (size_of im0)) (im :: imgs)))
                       (map (fun im0 => snd (size_of im0)) (im :: imgs)))
        by (apply list_max_in; discriminate).
      apply in_map_iff in Hin as (p & Hp & Hin). now exists p.
Qed.

End StitchLayout.

(** ** [cmd_stitch] as a whole *)

Lemma contains_char_append (c : ascii) (l r : string) :
  contains_char c (l ++ String c r) = true.
Proof.
  induction l as [|a l IH]; cbn.
  - now rewrite Ascii.eqb_refl.
  - rewrite IH. apply orb_true_r.
Qed.

Lemma group_key_contains (p k : string) :
  group_key p = Some k -> contains_char underscore p = true.
Proof.
  unfold group_key.
  destruct (rsplit_last underscore p) as [[l r]|] eqn:E; [|discriminate].
  intros _. apply rsplit_last_sound in E as [-> _].
  apply contains_char_append.
Qed.

Lemma dict_get_in {V : Type} (d : dict V) (k : string) (v : V) :
  NoDup (keys d) -> In (k, v) d -> dict_get d k = Some v.
Proof.
  unfold keys. induction d as [|[k0 w] d IH]; [contradiction|].
  cbn. intros Hnd Hin. inversion Hnd as [|? ? Hk0 Hd]; subst.
  destruct Hin as [[= -> ->]|Hin].
  - now rewrite String.eqb_refl.
  - destruct (String.eqb k0 k) eqn:E; [|now apply IH].
    apply String.eqb_eq in E as ->. exfalso. apply Hk0.
    apply in_map_iff. now exists (k, v).
Qed.

Section StitchAll.

Variable size_of : string -> nat * nat.

Lemma stitch_group_returns (files : list string) :
  Forall (fun p => contains_char underscore p = true) files ->
  exists r : option Strip, stitch_group size_of files = Done r.
Proof.
  intros H.
  destruct (stage_mapping_fold files [] H) as (mapping & E & _).
  assert (E0 : stage_mapping files = Done mapping) by exact E.
  unfold stitch_group. rewrite E0. cbn [and_then].
  destruct (flat_map _ STAGES); now eexists.
Qed.

Lemma stitch_fold_returns (groups : dict (list string))
      (saved : list (string * Strip)) :
  Forall (fun g => Forall (fun p => contains_char underscore p = true) (snd g))
         groups ->
  exists saved' : list (string * Strip),
    fold_left
      (fun acc g =>
         saved <~ acc ;;
         r <~ stitch_group size_of (snd g) ;;
         match r with
         | None => Done saved
         | Some strip => Done (saved ++ [(("stitched_" ++ fst g)%string, strip)])
         end)
      groups (Done saved) = Done saved'
    /\ (List.length saved' <= List.length saved + List.length groups)%nat.
Proof.
  intros H. revert saved. induction H as [|g groups Hg _ IH]; intros saved.
  - exists saved. split; [reflexivity|cbn; lia].
  - cbn [fold_left and_then].
    destruct (stitch_group_returns (snd g) Hg) as ([strip|] & ->); cbn [and_then].
    + destruct (IH (saved ++ [(("stitched_" ++ fst g)%string, strip)]))
        as (saved' & E & Hl).
      exists saved'. split; [exact E|].
      rewrite length_app in Hl. cbn in Hl |- *. lia.
    + destruct (IH saved) as (saved' & E & Hl).
      exists saved'. split; [exact E|]. cbn. lia.
Qed.

(** X16. [cmd_stitch] never raises, whatever PNG files the output
    directory holds: every group it builds has only stems with an
    underscore, so the stage of each file can be read, and it saves at
    most one strip per group. *)
Theorem cmd_stitch_completes (pngs : list string) :
  exists (groups : dict (list string)) (saved : list (string * Strip)),
    _collect_stage_pngs pngs = Done groups
    /\ cmd_stitch size_of pngs = Done saved
    /\ (List.length saved <= List.length groups)%nat
    /\ Forall (fun g => Forall (fun p => contains_char underscore p = true)
                               (snd g)) groups.
Proof.
  destruct (collect_fold pngs [] (NoDup_nil _)) as (groups & E & Hnd & Hget).
  assert (E0 : _collect_stage_pngs pngs = Done groups) by exact E.
  assert (Hall : Forall (fun g => Forall (fun p => contains_char underscore p = true)
                                         (snd g)) groups).
  { apply Forall_forall. intros [k l] Hin. cbn [snd].
    pose proof (dict_get_in groups k l Hnd Hin) as Hk.
    rewrite Hget in Hk. cbn [dict_get] in Hk.
    assert (El : l = group k pngs)
      by (destruct (group k pngs); [discriminate|congruence]).
    subst l. apply Forall_forall. intros p Hp.
    unfold group in Hp. apply filter_In in Hp as [_ Hp].
    unfold has_key in Hp.
    destruct (group_key p) as [k'|] eqn:Ek; [|discriminate].
    now apply group_key_contains with k'. }
  destruct (stitch_fold_returns groups [] Hall) as (saved & Es & Hl).
  exists groups, saved. split; [exact E0|].
  split; [unfold cmd_stitch; rewrite E0; exact Es|].
  split; [cbn in Hl; lia|exact Hall].
Qed.

End StitchAll.

(** ** The stage images, from [cmd_quantify] to [cmd_stitch] *)

Lemma Permutation_filter {A : Type} (f : A -> bool) (l l' : list A) :
  Permutation l l' -> Permutation (filter f l) (filter f l').
Proof.
  induction 1 as [|x l l' _ IH|x y l|l l' l'' _ IH1 _ IH2]; cbn [filter].
  - constructor.
  - destruct (f x); [now constructor|exact IH].
  - destruct (f x), (f y); try apply Permutation_refl. constructor.
  - now transitivity (filter f l').
Qed.

Lemma has_stage_stage_png (st stem label : string) :
  contains_char underscore label = false ->
  has_stage st (stage_png stem label) = String.eqb label st.
Proof.
  intros H. unfold has_stage, stage_of. now rewrite stage_png_split.
Qed.

Lemma stage_pngs_of_stage (stem st : string) :
  In st STAGES ->
  filter (has_stage st) (stage_pngs stem) = [stage_png stem st].
Proof.
  intros Hst. unfold stage_pngs, STAGES. cbn [map filter].
  rewrite !has_stage_stage_png by reflexivity.
  unfold STAGES in Hst. cbn [In] in Hst.
  decompose [or] Hst; try contradiction; subst st; reflexivity.
Qed.

Lemma last_of_stage_permuted (stem st : string) (files : list string) :
  Permutation files (stage_pngs stem) -> In st STAGES ->
  last_of_stage st files = Some (stage_png stem st).
Proof.
  intros Hp Hst. unfold last_of_stage.
  apply (Permutation_filter (has_stage st)) in Hp.
  rewrite stage_pngs_of_stage in Hp by assumption.
  apply Permutation_sym, Permutation_length_1_inv in Hp. now rewrite Hp.
Qed.

Lemma stitch_group_permuted (size_of : string -> nat * nat)
    (stem : string) (files : list string) :
  Permutation files (stage_pngs stem) ->
  exists strip : Strip,
    stitch_group size_of files = Done (Some strip)
    /\ map fst (pasted strip) = stage_pngs stem.
Proof.
  intros Hp.
  assert (Hfiles : Forall (fun p => contains_char underscore p = true) files).
  { apply Forall_forall. intros p Hin.
    apply (Permutation_in _ Hp) in Hin. unfold stage_pngs in Hin.
    apply in_map_iff in Hin as (label & <- & _).
    unfold stage_png. apply contains_char_append. }
  destruct (stage_mapping_fold files [] Hfiles) as (mapping & E & Hget).
  assert (Himgs : flat_map (fun st => match dict_get mapping st with
                                      | Some p => [p]
                                      | None => []
                                      end) STAGES = stage_pngs stem).
  { unfold stage_pngs.
    assert (H : forall st, In st STAGES ->
                  dict_get mapping st = Some (stage_png stem st))
      by (intros st Hst; now rewrite Hget, (last_of_stage_permuted stem)).
    induction STAGES as [|st stages IH]; [reflexivity|].
    cbn [flat_map map]. rewrite (H st) by now left.
    cbn [app]. f_equal. apply IH. intros st' Hst'. apply H. now right. }
  assert (E0 : stage_mapping files = Done mapping) by exact E.
  unfold stitch_group. rewrite E0. cbn [and_then]. rewrite Himgs.
  unfold stage_pngs at 1. unfold STAGES at 1. cbn [map].
  eexists. split; [reflexivity|].
  cbn [pasted]. apply paste_all_images.
Qed.

(** X14. The names of the stage images round-trip.  Splitting
    [stem_Label] at its last underscore gives back [stem] and [Label]
    for a label without underscore, even when the stem has some.  So,
    when the output directory holds the images [cmd_quantify] writes for
    files with distinct stems, then in whatever order the directory is
    listed, [_collect_stage_pngs] builds exactly one group per file: its
    five stage images, in the order of the listing.  The loop body of
    [cmd_stitch] then pastes the five images of each group in the order
    of the stages. *)
Theorem stage_pngs_round_trip :
  (forall stem label : string,
     contains_char underscore label = false ->
     rsplit1 underscore (stage_png stem label) = [stem; label])
  /\ (forall stems listing : list string,
        NoDup stems ->
        Permutation listing (flat_map stage_pngs stems) ->
        exists out : dict (list string),
          _collect_stage_pngs listing = Done out
          /\ (forall s : string, In s stems ->
                dict_get out s = Some (group s listing)
                /\ Permutation (group s listing) (stage_pngs s)
                /\ forall size_of : string -> nat * nat,
                     exists strip : Strip,
                       stitch_group size_of (group s listing) = Done (Some strip)
                       /\ map fst (pasted strip) = stage_pngs s)
          /\ (forall s : string, ~ In s stems -> dict_get out s = None)).
Proof.
  split.
  - intros stem label H. unfold rsplit1. now rewrite stage_png_split.
  - intros stems listing Hnd Hperm.
    destruct (collect_fold listing [] (NoDup_nil _)) as (out & E & _ & Hget).
    exists out. split; [exact E|].
    assert (Hg : forall s : string,
               Permutation (group s listing)
                 (if in_dec string_dec s stems then stage_pngs s else [])).
    { intros s. rewrite <- (group_written s stems Hnd).
      now apply Permutation_filter. }
    split; intros s Hs; specialize (Hg s);
      destruct (in_dec string_dec s stems); try contradiction.
    + split; [|split; [exact Hg|]].
      * rewrite Hget. cbn [dict_get].
        destruct (group s listing) as [|p g]; [|reflexivity].
        apply Permutation_nil in Hg. discriminate.
      * intros size_of. now apply stitch_group_permuted.
    + rewrite Hget. cbn [dict_get].
      apply Permutation_sym, Permutation_nil in Hg. now rewrite Hg.
Qed.

(* ================================================================== *)
(** * Properties of the loader *)

(** ** Removing an axis *)

Lemma length_remove_at (k : nat) (l : list nat) :
  (k < List.length l)%nat ->
  List.length (remove_at k l) = (List.length l - 1)%nat.
Proof.
  intros Hk. unfold remove_at.
  rewrite length_app, length_firstn, length_skipn. lia.
Qed.

Lemma all_positive_remove_at (k : nat) (l : list nat) :
  all_positive l -> all_positive (remove_at k l).
Proof.
  unfold all_positive, remove_at. rewrite !Forall_forall.
  intros H d Hd. apply H. apply in_app_or in Hd as [Hd|Hd].
  - apply (In_nth _ _ 0%nat) in Hd as (n & Hn & <-).
    rewrite length_firstn in Hn. rewrite nth_firstn.
    replace (n <? k)%nat with true by (symmetry; apply Nat.ltb_lt; lia).
    apply nth_In. lia.
  - rewrite <- (firstn_skipn (S k) l). apply in_or_app. now right.
Qed.

Lemma amax_positive (a : ndarray) (k : nat) :
  all_positive (dims a) -> (k < ndim a)%nat ->
  exists d : nat,
    nth_error (dims a) k = Some (S d)
    /\ amax a k
       = Done (mkNd (remove_at k (dims a))
                    (fun idx => axis_max d (fun i => item a (insert_at k i idx)))).
Proof.
  intros Hpos Hk. unfold amax.
  destruct (nth_error (dims a) k) as [d|] eqn:E.
  - assert (Hd : (0 < d)%nat).
    { unfold all_positive in Hpos. rewrite Forall_forall in Hpos.
      apply Hpos. now apply nth_error_In with k. }
    destruct d as [|d]; [lia|]. now exists d.
  - apply nth_error_None in E. unfold ndim in Hk. lia.
Qed.

(** ** The projection loops *)

Lemma project_loop_ndim (fuel : nat) (arr : ndarray) :
  all_positive (dims arr) -> (ndim arr <= fuel + 3)%nat ->
  exists arr' : ndarray,
    project_loop fuel arr = Done arr'
    /\ ndim arr' = Nat.min (ndim arr) 3
    /\ all_positive (dims arr').
Proof.
  revert arr. induction fuel as [|fuel IH]; intros arr Hpos Hn.
  - exists arr. cbn.
    replace (ndim arr <=? 3)%nat with true by (symmetry; apply Nat.leb_le; lia).
    repeat split; [lia|exact Hpos].
  - cbn [project_loop].
    destruct (ndim arr <=? 3)%nat eqn:E3.
    + apply Nat.leb_le in E3. exists arr. repeat split; [lia|exact Hpos].
    + apply Nat.leb_gt in E3.
      set (k := if (ndim arr =? 4)%nat
                then match chan_idx (dims arr) with Some O => 1%nat | _ => 0%nat end
                else 0%nat).
      assert (Hk : (k < ndim arr)%nat).
      { unfold k. destruct (ndim arr =? 4)%nat; [|lia].
        destruct (chan_idx (dims arr)) as [[|c]|]; lia. }
      destruct (amax_positive arr k Hpos Hk) as (d & _ & Ea).
      assert (Ea' : (if (ndim arr =? 4)%nat
                     then amax arr match chan_idx (dims arr) with
                                   | Some O => 1%nat
                                   | _ => 0%nat
                                   end
                     else amax arr 0) = amax arr k).
      { unfold k. now destruct (ndim arr =? 4)%nat. }
      rewrite Ea', Ea. cbn [and_then].
      set (arr1 := mkNd _ _).
      assert (Hn1 : ndim arr1 = (ndim arr - 1)%nat).
      { unfold ndim, arr1. cbn [dims]. now apply length_remove_at. }
      destruct (IH arr1) as (arr' & E & Hn' & Hp').
      * unfold arr1. cbn [dims]. now apply all_positive_remove_at.
      * lia.
      * exists arr'. split; [exact E|]. split; [lia|exact Hp'].
Qed.

Lemma max_loop_shape (fuel : nat) (a : ndarray) :
  all_positive (dims a) -> (ndim a <= fuel + 3)%nat ->
  exists a' : ndarray,
    max_loop fuel a = Done a'
    /\ dims a' = last3 (dims a).
Proof.
  revert a. induction fuel as [|fuel IH]; intros a Hpos Hn.
  - exists a. cbn.
    replace (ndim a <=? 3)%nat with true by (symmetry; apply Nat.leb_le; lia).
    split; [reflexivity|]. unfold last3.
    replace (List.length (dims a) - 3)%nat with 0%nat by (unfold ndim in Hn; lia).
    reflexivity.
  - cbn [max_loop].
    destruct (ndim a <=? 3)%nat eqn:E3.
    + apply Nat.leb_le in E3. exists a. split; [reflexivity|]. unfold last3.
      replace (List.length (dims a) - 3)%nat with 0%nat by (unfold ndim in E3; lia).
      reflexivity.
    + apply Nat.leb_gt in E3.
      destruct (amax_positive a 0 Hpos ltac:(lia)) as (d & _ & Ea).
      rewrite Ea. cbn [and_then].
      set (a1 := mkNd _ _).
      assert (Hd1 : dims a1 = tl (dims a)).
      { unfold a1, remove_at. cbn [dims firstn app]. now destruct (dims a). }
      destruct (IH a1) as (a' & E & Hd').
      * rewrite Hd1. unfold all_positive in *.
        destruct (dims a); [constructor|now inversion Hpos].
      * unfold ndim in *. rewrite Hd1.
        destruct (dims a); cbn in *; lia.
      * exists a'. split; [exact E|]. rewrite Hd', Hd1.
        unfold last3, ndim in *.
        destruct (dims a) as [|d0 rest]; [cbn in E3; lia|].
        cbn [tl List.length] in *.
        replace (S (List.length rest) - 3)%nat
          with (S (List.length rest - 3))%nat by lia.
        reflexivity.
Qed.

Lemma project_loop_small (fuel : nat) (arr : ndarray) :
  (ndim arr <= 3)%nat -> project_loop fuel arr = Done arr.
Proof.
  intros H. destruct fuel; cbn [project_loop];
    now replace (ndim arr <=? 3)%nat with true by (symmetry; apply Nat.leb_le; lia).
Qed.

Lemma max_loop_small (fuel : nat) (a : ndarray) :
  (ndim a <= 3)%nat -> max_loop fuel a = Done a.
Proof.
  intros H. destruct fuel; cbn [max_loop];
    now replace (ndim a <=? 3)%nat with true by (symmetry; apply Nat.leb_le; lia).
Qed.

Lemma load_czi_small (raw : ndarray) :
  (ndim raw <= 3)%nat ->
  load_czi raw
  = if (ndim raw =? 2)%nat then Done (stack_last raw)
    else
      d0 <~ shape0 raw ;;
      if (d0 <=? 5)%nat && (ndim raw =? 3)%nat
      then Done (moveaxis_first_last raw)
      else Done raw.
Proof.
  intros H. unfold load_czi. now rewrite project_loop_small.
Qed.

(** ** What [load_czi] returns *)

(** X17. [load_czi] turns every array of two or more axes, all of
    positive length, into an array of exactly three axes, without
    raising; an array with one axis is returned as it is, and an array
    with no axis raises IndexError. *)
Theorem load_czi_dimensions (raw : ndarray) :
  (ndim raw = 0%nat -> load_czi raw = Failed (PipelineError IndexError))
  /\ (ndim raw = 1%nat -> load_czi raw = Done raw)
  /\ ((2 <= ndim raw)%nat -> all_positive (dims raw) ->
      exists arr : ndarray, load_czi raw = Done arr /\ ndim arr = 3%nat).
Proof.
  split; [|split].
  - intros H. rewrite load_czi_small by lia. rewrite H. cbn.
    unfold shape0, ndim in *. now destruct (dims raw).
  - intros H. rewrite load_czi_small by lia. rewrite H. cbn.
    unfold shape0, ndim in *. destruct (dims raw) as [|d [|]]; try discriminate.
    cbn. now rewrite andb_false_r.
  - intros Hn Hpos. unfold load_czi.
    destruct (project_loop_ndim (ndim raw) raw Hpos ltac:(lia))
      as (arr & E & Hd & _).
    rewrite E. cbn [and_then].
    destruct (ndim arr =? 2)%nat eqn:E2.
    + apply Nat.eqb_eq in E2. eexists. split; [reflexivity|].
      unfold ndim, stack_last in *. cbn [dims]. rewrite length_app. cbn. lia.
    + apply Nat.eqb_neq in E2.
      assert (H3 : ndim arr = 3%nat) by lia.
      unfold shape0, ndim in *.
      destruct (dims arr) as [|d0 rest] eqn:Ed; [discriminate|].
      cbn [and_then]. rewrite H3.
      destruct (d0 <=? 5)%nat; cbn [andb Nat.eqb].
      * eexists. split; [reflexivity|].
        unfold moveaxis_first_last. cbn [dims]. rewrite Ed. cbn [tl hd].
        rewrite length_app. cbn in *. lia.
      * eexists. split; [reflexivity|]. now rewrite Ed.
Qed.

(** X18. [load_czi] on two and three axes.  A (Y, X) array becomes
    (Y, X, 1) with the same samples, however few rows it has.  A
    three-axis array whose first axis is at most 5 is read as
    (C, Y, X) and returned as (Y, X, C), also when that first axis was
    in fact a short row axis; with a first axis above 5 it is returned
    unchanged. *)
Theorem load_czi_low_dimensions (raw : ndarray) :
  (forall Y X : nat, dims raw = [Y; X] ->
     exists arr : ndarray,
       load_czi raw = Done arr /\ dims arr = [Y; X; 1%nat]
       /\ forall y x : nat, item arr [y; x; 0%nat] = item raw [y; x])
  /\ (forall C Y X : nat, dims raw = [C; Y; X] -> (C <= 5)%nat ->
        exists arr : ndarray,
          load_czi raw = Done arr /\ dims arr = [Y; X; C]
          /\ forall y x c : nat, item arr [y; x; c] = item raw [c; y; x])
  /\ (forall Y X C : nat, dims raw = [Y; X; C] -> (5 < Y)%nat ->
        load_czi raw = Done raw).
Proof.
  split; [|split].
  - intros Y X Hd. rewrite load_czi_small by (unfold ndim; rewrite Hd; cbn; lia).
    unfold ndim. rewrite Hd. cbn [List.length Nat.eqb].
    eexists. split; [reflexivity|]. unfold stack_last. cbn [dims item].
    rewrite Hd. split; reflexivity.
  - intros C Y X Hd HC. rewrite load_czi_small by (unfold ndim; rewrite Hd; cbn; lia).
    unfold ndim, shape0. rewrite Hd. cbn [List.length Nat.eqb and_then].
    replace (C <=? 5)%nat with true by (symmetry; apply Nat.leb_le; lia).
    cbn [andb]. eexists. split; [reflexivity|].
    unfold moveaxis_first_last. cbn [dims item]. rewrite Hd.
    split; reflexivity.
  - intros Y X C Hd HY. rewrite load_czi_small by (unfold ndim; rewrite Hd; cbn; lia).
    unfold ndim, shape0. rewrite Hd. cbn [List.length Nat.eqb and_then].
    replace (Y <=? 5)%nat with false by (symmetry; apply Nat.leb_gt; lia).
    reflexivity.
Qed.

Lemma chan_idx_four (d0 d1 d2 d3 : nat) :
  chan_idx [d0; d1; d2; d3] = Some 0%nat <->
  (d0 <= 5 /\ 5 < d1 /\ 5 < d2 /\ 5 < d3)%nat.
Proof.
  unfold chan_idx. cbn [rev app find_index List.length last].
  destruct (d3 <=? 5)%nat eqn:E3; [apply Nat.leb_le in E3|apply Nat.leb_gt in E3].
  { cbn. split; [discriminate|lia]. }
  destruct (d2 <=? 5)%nat eqn:E2; [apply Nat.leb_le in E2|apply Nat.leb_gt in E2].
  { cbn. split; [discriminate|lia]. }
  destruct (d1 <=? 5)%nat eqn:E1; [apply Nat.leb_le in E1|apply Nat.leb_gt in E1].
  { cbn. split; [discriminate|lia]. }
  destruct (d0 <=? 5)%nat eqn:E0; [apply Nat.leb_le in E0|apply Nat.leb_gt in E0].
  { cbn. split; [lia|reflexivity]. }
  split; [discriminate|lia].
Qed.

Lemma load_czi_four (raw : ndarray) (d0 d1 d2 d3 : nat) :
  dims raw = [d0; d1; d2; d3] ->
  load_czi raw
  = (arr <~ amax raw (match chan_idx [d0; d1; d2; d3] with
                      | Some O => 1%nat
                      | _ => 0%nat
                      end) ;;
     arr <~ project_loop 3 arr ;;
     if (ndim arr =? 2)%nat then Done (stack_last arr)
     else
       d <~ shape0 arr ;;
       if (d <=? 5)%nat && (ndim arr =? 3)%nat
       then Done (moveaxis_first_last arr)
       else Done arr).
Proof.
  intros Hd. unfold load_czi, ndim. rewrite Hd.
  cbn [List.length project_loop]. unfold ndim at 1 2. rewrite Hd.
  cbn [List.length Nat.leb Nat.eqb].
  now destruct (amax raw _).
Qed.

(** X19. [load_czi] on four axes of positive length.  Only when the
    first axis is at most 5 and the three others are above 5 does it
    keep the first axis as the channels: it takes the maximum along
    the second axis and returns (Y, X, C).  In every other case it
    takes the maximum along the first axis, and then moves the new
    first axis to the end when it is at most 5. *)
Theorem load_czi_four_axes (raw : ndarray) (d0 d1 d2 d3 : nat) :
  dims raw = [d0; d1; d2; d3] ->
  all_positive [d0; d1; d2; d3] ->
  let channel_first := (d0 <= 5 /\ 5 < d1 /\ 5 < d2 /\ 5 < d3)%nat in
  (channel_first ->
     exists arr : ndarray,
       load_czi raw = Done arr /\ dims arr = [d2; d3; d0]
       /\ forall y x c : nat,
            item arr [y; x; c]
            = axis_max (d1 - 1) (fun z => item raw [c; z; y; x]))
  /\ (~ channel_first -> (d1 <= 5)%nat ->
        exists arr : ndarray,
          load_czi raw = Done arr /\ dims arr = [d2; d3; d1]
          /\ forall y x c : nat,
               item arr [y; x; c]
               = axis_max (d0 - 1) (fun t => item raw [t; c; y; x]))
  /\ (~ channel_first -> (5 < d1)%nat ->
        exists arr : ndarray,
          load_czi raw = Done arr /\ dims arr = [d1; d2; d3]
          /\ forall a b c : nat,
               item arr [a; b; c]
               = axis_max (d0 - 1) (fun t => item raw [t; a; b; c])).
Proof.
  intros Hd Hpos channel_first. unfold channel_first. clear channel_first.
  assert (H0 : (0 < d0)%nat) by (inversion Hpos; assumption).
  assert (H1 : (0 < d1)%nat)
    by (inversion Hpos as [|? ? _ Hp]; inversion Hp; assumption).
  destruct d0 as [|n0]; [lia|]. destruct d1 as [|n1]; [lia|].
  rewrite (load_czi_four raw _ _ _ _ Hd).
  split; [|split].
  - intros Hc. pose proof (proj2 (chan_idx_four _ _ _ _) Hc) as ->.
    unfold amax. rewrite Hd. cbn [nth_error and_then].
    rewrite project_loop_small by (unfold ndim; cbn; lia).
    cbn [and_then]. unfold ndim, shape0. cbn [dims remove_at firstn skipn app
      List.length Nat.eqb and_then].
    replace (S n0 <=? 5)%nat with true by (symmetry; apply Nat.leb_le; lia).
    cbn [andb]. eexists. split; [reflexivity|].
    unfold moveaxis_first_last. cbn [dims item tl hd app].
    split; [reflexivity|]. intros y x c. cbn. now rewrite Nat.sub_0_r.
  - intros Hc H1'.
    assert (Hk : match chan_idx [S n0; S n1; d2; d3] with
                 | Some O => 1%nat
                 | _ => 0%nat
                 end = 0%nat).
    { destruct (chan_idx [S n0; S n1; d2; d3]) as [[|k]|] eqn:E; try reflexivity.
      apply chan_idx_four in E. contradiction. }
    rewrite Hk. unfold amax. rewrite Hd. cbn [nth_error and_then].
    rewrite project_loop_small by (unfold ndim; cbn; lia).
    cbn [and_then]. unfold ndim, shape0. cbn [dims remove_at firstn skipn app
      List.length Nat.eqb and_then].
    replace (S n1 <=? 5)%nat with true by (symmetry; apply Nat.leb_le; lia).
    cbn [andb]. eexists. split; [reflexivity|].
    unfold moveaxis_first_last. cbn [dims item tl hd app].
    split; [reflexivity|]. intros y x c. cbn. now rewrite Nat.sub_0_r.
  - intros Hc H1'.
    assert (Hk : match chan_idx [S n0; S n1; d2; d3] with
                 | Some O => 1%nat
                 | _ => 0%nat
                 end = 0%nat).
    { destruct (chan_idx [S n0; S n1; d2; d3]) as [[|k]|] eqn:E; try reflexivity.
      apply chan_idx_four in E. contradiction. }
    rewrite Hk. unfold amax. rewrite Hd. cbn [nth_error and_then].
    rewrite project_loop_small by (unfold ndim; cbn; lia).
    cbn [and_then]. unfold ndim, shape0. cbn [dims remove_at firstn skipn app
      List.length Nat.eqb and_then].
    replace (S n1 <=? 5)%nat with false by (symmetry; apply Nat.leb_gt; lia).
    cbn [andb]. eexists. split; [reflexivity|].
    cbn [dims item]. split; [reflexivity|].
    intros a b c. cbn. now rewrite Nat.sub_0_r.
Qed.

(** X20. With five or more axes of positive length, [load_czi]
    first takes the maximum along the first axis, whatever that axis
    holds, and goes on as for the array so reduced: the axes before the
    last four never reach the result. *)
Theorem load_czi_projects_leading_axes (raw : ndarray) :
  (5 <= ndim raw)%nat -> all_positive (dims raw) ->
  exists raw' : ndarray,
    amax raw 0 = Done raw'
    /\ dims raw' = tl (dims raw)
    /\ (forall idx : list nat,
          item raw' idx
          = axis_max (hd 0%nat (dims raw) - 1) (fun i => item raw (i :: idx)))
    /\ load_czi raw = load_czi raw'.
Proof.
  intros Hn Hpos.
  destruct (amax_positive raw 0 Hpos ltac:(lia)) as (d & Hd & Ea).
  eexists. split; [exact Ea|].
  assert (Hdims : remove_at 0 (dims raw) = tl (dims raw))
    by (unfold remove_at; cbn; now destruct (dims raw)).
  cbn [dims item]. split; [exact Hdims|].
  split.
  - intros idx. destruct (dims raw) as [|d0 rest]; [discriminate|].
    cbn in Hd. injection Hd as ->. cbn. now rewrite Nat.sub_0_r.
  - assert (Hn' : ndim (mkNd (remove_at 0 (dims raw))
                   (fun idx => axis_max d (fun i => item raw (insert_at 0 i idx))))
                 = (ndim raw - 1)%nat).
    { unfold ndim. cbn [dims]. apply length_remove_at. unfold ndim in Hn. lia. }
    unfold load_czi. rewrite Hn'.
    destruct (ndim raw) as [|m] eqn:Em; [lia|].
    cbn [project_loop]. rewrite Em.
    replace (S m <=? 3)%nat with false by (symmetry; apply Nat.leb_gt; lia).
    replace (S m =? 4)%nat with false by (symmetry; apply Nat.eqb_neq; lia).
    rewrite Ea. cbn [and_then].
    replace (S m - 1)%nat with m by lia. reflexivity.
Qed.

(** ** What [max_projection] returns *)

Lemma length_last3 (shape : list nat) :
  (3 <= List.length shape)%nat -> List.length (last3 shape) = 3%nat.
Proof. intros H. unfold last3. rewrite length_skipn. lia. Qed.

(** X21. [max_projection] keeps the last three axes of an array
    with three or more axes of positive length, taking the maximum
    along the others, and moves the first of them to the end when it
    is at most 5.  A (Y, X) array becomes (Y, X, 1) and then, unlike in
    [load_czi], goes through the same test: with at most 5 rows it is
    returned as (X, 1, Y).  One axis is returned as it is; no axis
    raises IndexError. *)
Theorem max_projection_shape (arr : ndarray) :
  all_positive (dims arr) ->
  ((3 <= ndim arr)%nat ->
     exists a : ndarray,
       max_projection arr = Done a
       /\ dims a = channels_last (last3 (dims arr)))
  /\ (forall Y X : nat, dims arr = [Y; X] ->
        exists a : ndarray,
          max_projection arr = Done a
          /\ dims a = (if (Y <=? 5)%nat then [X; 1; Y] else [Y; X; 1])%nat
          /\ ((5 < Y)%nat ->
                forall y x : nat, item a [y; x; 0%nat] = item arr [y; x])
          /\ ((Y <= 5)%nat ->
                forall y x : nat, item a [x; 0%nat; y] = item arr [y; x]))
  /\ (ndim arr = 1%nat -> max_projection arr = Done arr)
  /\ (ndim arr = 0%nat ->
        max_projection arr = Failed (PipelineError IndexError)).
Proof.
  intros Hpos. split; [|split; [|split]].
  - intros Hn. unfold max_projection.
    destruct (max_loop_shape (ndim arr) arr Hpos ltac:(lia)) as (a & E & Hd).
    rewrite E. cbn [and_then].
    pose proof (length_last3 (dims arr) Hn) as Hl. rewrite <- Hd in Hl.
    unfold ndim. rewrite Hl. cbn [Nat.eqb].
    unfold shape0, channels_last. rewrite <- Hd.
    destruct (dims a) as [|d0 rest] eqn:Ea; [discriminate|].
    cbn [and_then]. rewrite Hl. cbn [Nat.eqb]. rewrite andb_true_r.
    destruct (d0 <=? 5)%nat.
    + eexists. split; [reflexivity|].
      unfold moveaxis_first_last. cbn [dims]. now rewrite Ea.
    + eexists. split; [reflexivity|exact Ea].
  - intros Y X Hd. unfold max_projection.
    rewrite max_loop_small by (unfold ndim; rewrite Hd; cbn; lia).
    cbn [and_then]. unfold ndim. rewrite Hd. cbn [List.length Nat.eqb].
    unfold shape0, stack_last. cbn [dims]. rewrite Hd.
    cbn [app and_then List.length Nat.eqb].
    rewrite andb_true_r.
    destruct (Y <=? 5)%nat eqn:EY.
    + apply Nat.leb_le in EY. eexists. split; [reflexivity|].
      unfold moveaxis_first_last. cbn [dims item tl hd app].
      split; [reflexivity|]. split; [lia|]. intros _ y x. reflexivity.
    + apply Nat.leb_gt in EY. eexists. split; [reflexivity|].
      cbn [dims item]. split; [reflexivity|].
      split; [|lia]. intros _ y x. reflexivity.
  - intros H. unfold max_projection.
    rewrite max_loop_small by lia. cbn [and_then]. rewrite H. cbn [Nat.eqb].
    unfold shape0, ndim in *. destruct (dims arr) as [|d [|]]; try discriminate.
    cbn. now rewrite andb_false_r.
  - intros H. unfold max_projection.
    rewrite max_loop_small by lia. cbn [and_then]. rewrite H. cbn [Nat.eqb].
    unfold shape0, ndim in *. now destruct (dims arr).
Qed.

(* ================================================================== *)
(** * Shapes and failures of the measurement *)

Lemma nonzero_mean_shape_mismatch (values : image) (m : mask) :
  shape m <> shape values -> _nonzero_mean values (Some m) = Raise IndexError.
Proof.
  intros H. unfold _nonzero_mean, bool_index, shape_eqb.
  destruct (list_eq_dec Nat.eq_dec (shape values) (shape m)) as [E|E];
    [congruence|reflexivity].
Qed.

(** X22. [measure_intensity] returns its five means exactly when the
    two masks and the secondary image all have the shape of the primary
    image; in every other case it raises IndexError and returns no
    partial result. *)
Theorem measure_intensity_needs_equal_shapes
    (main_img red_img : image) (masks : Masks) :
  ((exists m : list (string * float),
      measure_intensity main_img red_img masks = Ok m)
   <-> (shape (bg masks) = shape main_img
        /\ shape (agg masks) = shape main_img
        /\ shape red_img = shape main_img))
  /\ ((forall m : list (string * float),
         measure_intensity main_img red_img masks <> Ok m)
      -> measure_intensity main_img red_img masks = Raise IndexError).
Proof.
  split.
  - split.
    + intros [m Hm]. now apply measure_intensity_shapes with m.
    + intros (Hb & Ha & Hr).
      destruct (measure_intensity_eval main_img red_img masks Hb Ha Hr)
        as (E & _ & _).
      eexists. exact E.
  - intros Hno. unfold measure_intensity in *.
    rewrite nonzero_mean_whole in *. cbn [bind] in *.
    destruct (list_eq_dec Nat.eq_dec (shape (bg masks)) (shape main_img)) as [Hb|Hb];
      [|now rewrite (nonzero_mean_shape_mismatch main_img (bg masks) Hb)].
    rewrite (nonzero_mean_ok main_img (bg masks) Hb) in *. cbn [bind] in *.
    destruct (list_eq_dec Nat.eq_dec (shape (agg masks)) (shape main_img)) as [Ha|Ha];
      [|now rewrite (nonzero_mean_shape_mismatch main_img (agg masks) Ha)].
    rewrite (nonzero_mean_ok main_img (agg masks) Ha) in *. cbn [bind] in *.
    destruct (list_eq_dec Nat.eq_dec (shape (agg masks)) (shape red_img)) as [Hr|Hr];
      [|now rewrite (nonzero_mean_shape_mismatch red_img (agg masks) Hr)].
    rewrite (nonzero_mean_ok red_img (agg masks) Hr) in *. cbn [bind] in *.
    rewrite (nonzero_mean_ok red_img
               (logical_and (bg masks) (logical_not (agg masks)))) in *
      by (rewrite shape_and_not; congruence).
    cbn [bind] in *. exfalso. eapply Hno. reflexivity.
Qed.

(* ================================================================== *)
(** * The default multipliers at the command line *)

Section DefaultMultipliers.

Variable gaussian_filter : image -> float -> image.

Hypothesis gaussian_filter_shape :
  forall (img : image) (sigma : float),
    shape (gaussian_filter img sigma) = shape img.

Lemma quantify_file_nan_pc (args : Args) (s : Settings) (p : File) (lk uk : R) :
  (0 <= main_channel args)%Z -> (0 <= red_channel args)%Z ->
  lower_k s = Fin lk -> upper_k s = Fin uk -> uk <= lk ->
  quantify_file gaussian_filter args s p = Done None
  \/ exists (row : dict cell) (written : list string),
       quantify_file gaussian_filter args s p = Done (Some (row, written))
       /\ dict_get row "Red Cytoplasm (Intensity)" = Some (Number NaN)
       /\ dict_get row "PC" = Some (Number NaN).
Proof.
  intros Hm0 Hr0 Hlk Huk Hk.
  destruct (channels_checked args p) eqn:Hc;
    [right|left; now apply quantify_file_skipped].
  pose proof Hc as Hc'. unfold channels_checked in Hc'.
  apply andb_true_iff in Hc' as [H1 H2]. apply Z.ltb_lt in H1, H2.
  destruct (channel (loaded p) (main_channel args)) as [main_img|] eqn:Em;
    [|rewrite channel_in_range in Em by lia; discriminate].
  destruct (channel (loaded p) (red_channel args)) as [red_img|] eqn:Er;
    [|rewrite channel_in_range in Er by lia; discriminate].
  rewrite (quantify_file_selected gaussian_filter args s p _ _ Hc Em Er).
  destruct (make_masks_shapes gaussian_filter main_img s) as [Hb Ha].
  assert (Hp : shape (_prep gaussian_filter main_img s) = shape main_img).
  { unfold _prep.
    destruct (float_truthy (blur_sigma s) && fgtb (blur_sigma s) (Fin 0));
      [apply gaussian_filter_shape|reflexivity]. }
  rewrite Hp in Hb, Ha.
  pose proof (channel_shape _ _ _ _ _ Er Em) as Hs.
  destruct (measure_intensity_eval main_img red_img
              (make_masks gaussian_filter main_img s) Hb Ha Hs) as (E & _ & _).
  assert (Hcyto : all_false
            (logical_and (bg (make_masks gaussian_filter main_img s))
               (logical_not (agg (make_masks gaussian_filter main_img s))))).
  { apply cytoplasm_all_false; [congruence|].
    now apply background_within_aggregate with lk uk. }
  rewrite (mean_in_region_all_false red_img _ Hcyto) in E.
  rewrite E. cbn [lift and_then].
  set (u := mean_in_region main_img None).
  set (b := mean_in_region main_img (Some _)).
  set (a := mean_in_region main_img (Some _)).
  set (ra := mean_in_region red_img (Some _)).
  clearbody u b a ra.
  match goal with
  | |- exists _ _, and_then (getitem ?m ?k) _ = _ /\ _ =>
      replace (getitem m k) with (Done ra) by reflexivity
  end.
  cbn [and_then].
  match goal with
  | |- exists _ _, and_then (getitem ?m ?k) _ = _ /\ _ =>
      replace (getitem m k) with (Done NaN) by reflexivity
  end.
  cbn [and_then partition_coefficient isfinite negb orb lift].
  eexists. eexists. split; [reflexivity|]. split; reflexivity.
Qed.

Lemma quantify_loop_nan_pc (args : Args) (s : Settings) (files : list File)
      (rows : list (dict cell)) (pngs : list string) (lk uk : R) :
  (0 <= main_channel args)%Z -> (0 <= red_channel args)%Z ->
  lower_k s = Fin lk -> upper_k s = Fin uk -> uk <= lk ->
  exists (rows' : list (dict cell)) (pngs' : list string),
    quantify_loop gaussian_filter args s files rows pngs = Done (rows ++ rows', pngs')
    /\ Forall (fun row =>
                 dict_get row "Red Cytoplasm (Intensity)" = Some (Number NaN)
                 /\ dict_get row "PC" = Some (Number NaN)) rows'.
Proof.
  intros Hm0 Hr0 Hlk Huk Hk. revert rows pngs.
  induction files as [|p files IH]; intros rows pngs.
  - exists [], pngs. cbn. rewrite app_nil_r. split; [reflexivity|constructor].
  - cbn [quantify_loop].
    destruct (quantify_file_nan_pc args s p lk uk Hm0 Hr0 Hlk Huk Hk)
      as [E | (row & written & E & Hrow)]; rewrite E; cbn [and_then].
    + apply IH.
    + destruct (IH (rows ++ [row]) (pngs ++ written)) as (rows' & pngs' & E' & HF).
      exists (row :: rows'), pngs'. split.
      * rewrite <- app_assoc in E'. exact E'.
      * now constructor.
Qed.

(** X23. With multipliers [upper_k <= lower_k], which the defaults
    of the command line (0.25 and 0.20) are, and channel indices that
    are not negative, every row of the table [cmd_quantify] builds has
    NaN in its Red Cytoplasm column and NaN in its PC column. *)
Theorem default_multipliers_give_nan_pc
    (args : Args) (files : list File) (lk uk : R) :
  (0 <= main_channel args)%Z -> (0 <= red_channel args)%Z ->
  arg_lower_k args = Fin lk -> arg_upper_k args = Fin uk -> uk <= lk ->
  files <> [] ->
  exists (rows : list (dict cell)) (pngs : list string),
    cmd_quantify gaussian_filter args files = Done (rows, pngs)
    /\ Forall (fun row =>
                 dict_get row "Red Cytoplasm (Intensity)" = Some (Number NaN)
                 /\ dict_get row "PC" = Some (Number NaN)) rows.
Proof.
  intros Hm0 Hr0 Hlk Huk Hk Hne.
  destruct files as [|p files]; [congruence|].
  unfold cmd_quantify.
  destruct (quantify_loop_nan_pc args
              (mkSettings (arg_lower_k args) (arg_upper_k args)
                          (arg_blur args) (arg_dilate args))
              (p :: files) [] [] lk uk Hm0 Hr0 Hlk Huk Hk)
    as (rows & pngs & E & HF).
  exists rows, pngs. split; [exact E|exact HF].
Qed.

End DefaultMultipliers.

(* ================================================================== *)
(** * The further properties at concrete inputs *)

Lemma blur_off (s : Settings) :
  blur_sigma s = Fin 0 -> fgtb (blur_sigma s) (Fin 0) = false.
Proof. intros ->. apply fgtb_irrefl. Qed.

Lemma non_finite_pixel_empties_masks_witness :
  lower (make_masks no_filter sample_image default_settings) = NaN.
Proof.
  assert (Hn : ravel sample_image = [] \/ has_non_finite (ravel sample_image)).
  { right. exists NaN. split; [cbn; tauto|reflexivity]. }
  destruct (non_finite_pixel_empties_masks no_filter sample_image sample_image
              default_settings (blur_off default_settings eq_refl) Hn eq_refl)
    as (H & _).
  exact H.
Defined.

Lemma cytoplasm_empty_when_upper_k_not_above_witness :
  all_false (logical_and
               (bg (make_masks no_filter two_level default_settings))
               (logical_not (agg (make_masks no_filter two_level default_settings)))).
Proof.
  assert (Hf : forall (img : image) (sigma : float),
             shape (no_filter img sigma) = shape img) by reflexivity.
  assert (Hk : 20 / 100 <= 25 / 100) by lra.
  destruct (cytoplasm_empty_when_upper_k_not_above no_filter Hf
              two_level two_level default_settings (25 / 100) (20 / 100)
              eq_refl eq_refl Hk eq_refl) as (_ & H & _).
  exact H.
Defined.

Lemma dilated_masks_reach_witness :
  sub_mask
    (greater (_prep no_filter corner_spot dilate3_settings)
             (lower (make_masks no_filter corner_spot dilate3_settings)))
    (bg (make_masks no_filter corner_spot dilate3_settings)).
Proof.
  assert (Hr : (1 <= 1)%Z) by lia.
  destruct (dilated_masks_reach no_filter corner_spot dilate3_settings 1
              Hr eq_refl) as (_ & _ & H & _).
  exact H.
Defined.

Lemma masks_shrink_as_multiplier_grows_witness :
  sub_mask
    (bg (make_masks no_filter two_level (with_lower_k default_settings (Fin 2))))
    (bg (make_masks no_filter two_level (with_lower_k default_settings (Fin 1)))).
Proof.
  assert (Hk : 1 <= 2) by lra.
  destruct (masks_shrink_as_multiplier_grows no_filter two_level
              default_settings 1 2 NaN Hk) as (H & _).
  exact H.
Defined.



Lemma partition_coefficient_sign_witness :
  exists pc : float,
    partition_coefficient
      (mean_in_region one_pixel (Some [[true]]))
      (Some (mean_in_region one_pixel
               (Some (logical_and [[true]] (logical_not [[true]])))))
    = Ok pc
    /\ nan_or_nonneg pc.
Proof.
  assert (Hpos : forall x : R, In (Fin x) (ravel one_pixel) -> 0 <= x).
  { intros x [[= <-]|[]]. lra. }
  destruct (measure_intensity_eval one_pixel one_pixel one_pixel_masks
              eq_refl eq_refl eq_refl) as (E & _).
  exact (partition_coefficient_sign one_pixel one_pixel one_pixel_masks
           _ _ _ Hpos E eq_refl eq_refl).
Defined.


Lemma cmd_quantify_table_witness :
  exists (rows : list (dict cell)) (pngs : list string),
    cmd_quantify no_filter sample_args [sample_file] = Done (rows, pngs)
    /\ Forall2 (fun row p =>
                  keys row = COLUMNS
                  /\ dict_get row "Filename" = Some (Text (name p)))
               rows (filter (channels_checked sample_args) [sample_file])
    /\ pngs = if save_stages sample_args
              then flat_map (fun p => stage_pngs (stem p))
                            (filter (channels_checked sample_args) [sample_file])
              else [].
Proof.
  assert (Hf : forall (img : image) (sigma : float),
             shape (no_filter img sigma) = shape img) by reflexivity.
  assert (H0 : (0 <= 0)%Z) by lia.
  destruct (cmd_quantify_table no_filter Hf sample_args [sample_file] H0 H0)
    as (_ & H).
  apply H. discriminate.
Defined.

Lemma stitch_group_layout_witness :
  exists strip : Strip,
    stitch_group sample_sizes (stage_pngs "a") = Done (Some strip)
    /\ canvas_width strip = 10%nat
    /\ canvas_height strip = 3%nat.
Proof.
  assert (Hf : Forall (fun p => contains_char underscore p = true)
                      (stage_pngs "a")) by (repeat constructor).
  destruct (stitch_group_layout sample_sizes (stage_pngs "a") Hf) as (_ & H).
  destruct H as (strip & E & _ & Hw & _ & _ & (p & _ & Hh)); [discriminate|].
  exists strip. split; [exact E|]. split; [exact Hw|]. now rewrite <- Hh.
Defined.

Lemma load_czi_four_axes_witness :
  exists arr : ndarray,
    load_czi sample_4d = Done arr /\ dims arr = [6; 6; 2]%nat.
Proof.
  assert (Hp : all_positive [2; 6; 6; 6]%nat) by (repeat constructor).
  destruct (load_czi_four_axes sample_4d 2 6 6 6 eq_refl Hp) as (H & _).
  destruct H as (arr & E & Hd & _); [lia|].
  now exists arr.
Defined.

Lemma load_czi_projects_leading_axes_witness :
  exists raw' : ndarray,
    dims raw' = [1; 8; 8; 1]%nat /\ load_czi sample_5d = load_czi raw'.
Proof.
  assert (Hn : (5 <= ndim sample_5d)%nat) by (cbn; lia).
  assert (Hp : all_positive (dims sample_5d)) by (repeat constructor).
  destruct (load_czi_projects_leading_axes sample_5d Hn Hp)
    as (raw' & _ & Hd & _ & E).
  now exists raw'.
Defined.

Lemma max_projection_shape_witness :
  exists a : ndarray,
    max_projection sample_4d = Done a /\ dims a = [6; 6; 6]%nat.
Proof.
  assert (Hp : all_positive (dims sample_4d)) by (repeat constructor).
  destruct (max_projection_shape sample_4d Hp) as (H & _).
  destruct H as (a & E & Hd); [cbn; lia|].
  now exists a.
Defined.

Lemma default_multipliers_give_nan_pc_witness :
  exists (rows : list (dict cell)) (pngs : list string),
    cmd_quantify no_filter default_args [sample_file] = Done (rows, pngs)
    /\ Forall (fun row =>
                 dict_get row "Red Cytoplasm (Intensity)" = Some (Number NaN)
                 /\ dict_get row "PC" = Some (Number NaN)) rows.
Proof.
  assert (Hf : forall (img : image) (sigma : float),
             shape (no_filter img sigma) = shape img) by reflexivity.
  assert (H0 : (0 <= 0)%Z) by lia.
  assert (Hk : 20 / 100 <= 25 / 100) by lra.
  assert (Hne : [sample_file] <> []) by discriminate.
  exact (default_multipliers_give_nan_pc no_filter Hf default_args [sample_file]
           (25 / 100) (20 / 100) H0 H0 eq_refl eq_refl Hk Hne).
Defined.
